(** * pyrogram.methods.messages.get_media_group

    A shallow embedding of [GetMediaGroup.get_media_group]
    (src/pyrogram/methods/messages/get_media_group.py) and the properties of
    its two chunked scans.

    The method talks to the rest of the client only through
    [self.get_messages]; that collaborator is an interface here, so every
    statement about the method holds for whatever the client answers.  A
    client that answers from a fixed chat is defined afterwards and used for
    the statements that speak about a chat. *)

From Stdlib Require Import ZArith List Sorted Permutation Lia Bool DecimalString.
From stdpp Require Import base tactics option list list_numbers gmap strings.

Open Scope Z_scope.

(** ** Python values read by the method *)

(** [Message.media_group_id] is an optional identifier.  The method only
    tests it for truthiness and compares it with [==]; the values that can
    occur are [None], an [int] and a [str]. *)
Inductive pyval : Type :=
| PyNone
| PyInt (n : Z)
| PyStr (s : string).

#[global] Instance pyval_eq_dec : EqDecision pyval.
Proof. solve_decision. Defined.

(** [bool(v)]: [None], [0] and the empty string are falsy. *)
Definition truthy (v : pyval) : bool :=
  match v with
  | PyNone => false
  | PyInt n => negb (n =? 0)
  | PyStr s => negb (String.eqb s EmptyString)
  end.

(** [v1 == v2] on these values: an [int] never equals a [str], and [None]
    equals only [None]. *)
Definition py_eq (v1 v2 : pyval) : bool :=
  match v1, v2 with
  | PyNone, PyNone => true
  | PyInt a, PyInt b => a =? b
  | PyStr a, PyStr b => String.eqb a b
  | _, _ => false
  end.

(** The two fields of [types.Message] that the method reads. *)
Record Message : Type := mkMessage {
  id : Z;
  media_group_id : pyval
}.

#[global] Instance Message_eq_dec : EqDecision Message.
Proof. solve_decision. Defined.

(** [chat_id: Union[int, str]]. *)
Inductive chat_ref : Type :=
| ChatInt (n : Z)
| ChatStr (s : string).

(** ** Exceptions

    All four are [ValueError] in the source; they differ by their message.
    The constructors carry the names of the error taxonomy. *)
Inductive error : Type :=
| InvalidArgument          (* line 59 *)
| NotFound (message_id : Z) (* line 65 *)
| NotAGroupMember          (* line 68 *)
| AssemblyFailure.         (* line 104 *)

Definition error_message (e : error) : string :=
  match e with
  | InvalidArgument => "Passed message_id is negative or equal to zero."
  | NotFound message_id =>
      "Message with ID " ++
      NilZero.string_of_int (Z.to_int message_id) ++ " not found"
  | NotAGroupMember => "The message doesn't belong to a media group"
  | AssemblyFailure => "Failed to retrieve the media group"
  end%string.

(** ** The client interface and the calls made on it *)

(** A call of [self.get_messages].  [GetOne] is the call with a single id
    (line 62); [GetRange chat start stop] is the call of
    [get_message_chunk], whose [message_ids] is the object
    [range(start, stop)] and whose [replies] is [0] (lines 74-78). *)
Inductive call : Type :=
| GetOne (chat_id : chat_ref) (message_id : Z)
| GetRange (chat_id : chat_ref) (start stop : Z).

(** What [self.get_messages] answers, over a state [W] of the remote side
    that an answer may change: a message or [None] for a single id, a list
    of messages for a range. *)
Record Client (W : Type) : Type := mkClient {
  get_message : chat_ref -> Z -> W -> option Message * W;
  get_messages : chat_ref -> Z -> Z -> W -> list Message * W
}.
Arguments get_message {W} _ _ _ _.
Arguments get_messages {W} _ _ _ _ _.

(** ** Outcomes and the monad of the method

    A computation reads and updates the remote state, returns normally,
    raises, or runs out of the fuel that bounds the two [while True] loops,
    and records the calls it made in the order it made them. *)
Inductive result (A : Type) : Type :=
| Returns (a : A)
| Raises (e : error)
| OutOfFuel.
Arguments Returns {A} a.
Arguments Raises {A} e.
Arguments OutOfFuel {A}.

Definition M (W A : Type) : Type := W -> result A * W * list call.

Definition ret {W A} (a : A) : M W A := fun w => (Returns a, w, []).
Definition raise {W A} (e : error) : M W A := fun w => (Raises e, w, []).
Definition out_of_fuel {W A} : M W A := fun w => (OutOfFuel, w, []).

Definition bind {W A B} (m : M W A) (f : A -> M W B) : M W B :=
  fun w =>
    match m w with
    | (Returns a, w1, log1) =>
        match f a w1 with
        | (r, w2, log2) => (r, w2, log1 ++ log2)
        end
    | (Raises e, w1, log1) => (Raises e, w1, log1)
    | (OutOfFuel, w1, log1) => (OutOfFuel, w1, log1)
    end.

Notation "x <- m ;; k" := (bind m (fun x => k))
  (at level 100, m at next level, right associativity).

(** Projections of a finished run. *)
Definition outcome {W A} (r : result A * W * list call) : result A := r.1.1.
Definition calls {W A} (r : result A * W * list call) : list call := r.2.

(** ** The method *)

(** [sorted(l, key=lambda x: x.id)]: a stable sort on the key.  [insert_by_id]
    puts a message before the first one whose id is not smaller, so that
    folding from the right keeps equal ids in their original order. *)
Fixpoint insert_by_id (x : Message) (l : list Message) : list Message :=
  match l with
  | [] => [x]
  | y :: l' => if id x <=? id y then x :: y :: l' else y :: insert_by_id x l'
  end.

Definition sorted (l : list Message) : list Message :=
  foldr insert_by_id [] l.

Section GetMediaGroup.
Context {W : Type} (self : Client W).

Definition call_get_message (chat_id : chat_ref) (message_id : Z)
  : M W (option Message) :=
  fun w =>
    let '(r, w') := get_message self chat_id message_id w in
    (Returns r, w', [GetOne chat_id message_id]).

(** Lines 73-78. *)
Definition get_message_chunk (chat_id : chat_ref) (start_id end_id : Z)
  : M W (list Message) :=
  fun w =>
    let '(r, w') := get_messages self chat_id start_id (end_id + 1) w in
    (Returns r, w', [GetRange chat_id start_id (end_id + 1)]).

(** The comprehension of lines 85 and 97. *)
Definition same_group (media_group_id0 : pyval) (chunk : list Message)
  : list Message :=
  List.filter (fun msg => py_eq (media_group_id msg) media_group_id0) chunk.

(** Lines 83-91, one unit of fuel per iteration.  [head] is
    [group_messages[0]], [None] on the empty list.  The local variable
    [media_group_id] of line 70 is [media_group_id0] here, the name itself
    being the field of [Message]. *)
Fixpoint search_backwards (fuel : nat) (chat_id : chat_ref)
    (media_group_id0 : pyval) (media_group : list Message) (current_id : Z)
  : M W (list Message) :=
  match fuel with
  | O => out_of_fuel
  | S fuel' =>
      chunk <- get_message_chunk chat_id (Z.max 1 (current_id - 9)) current_id ;;
      let group_messages := same_group media_group_id0 chunk in
      match head group_messages with
      | None => ret media_group
      | Some first =>
          if negb (id first =? current_id - Z.of_nat (length group_messages) + 1)
          then ret media_group
          else
            let media_group := group_messages ++ media_group in
            let current_id := id first - 1 in
            if current_id <=? 0 then ret media_group
            else search_backwards fuel' chat_id media_group_id0
                   media_group current_id
      end
  end.

(** Lines 95-101.  [last] is [group_messages[-1]]. *)
Fixpoint search_forwards (fuel : nat) (chat_id : chat_ref)
    (media_group_id0 : pyval) (media_group : list Message) (current_id : Z)
  : M W (list Message) :=
  match fuel with
  | O => out_of_fuel
  | S fuel' =>
      chunk <- get_message_chunk chat_id current_id (current_id + 9) ;;
      let group_messages := same_group media_group_id0 chunk in
      match last group_messages with
      | None => ret media_group
      | Some final =>
          let media_group := media_group ++ group_messages in
          let current_id := id final + 1 in
          search_forwards fuel' chat_id media_group_id0 media_group current_id
      end
  end.

(** Lines 58-106. *)
Definition get_media_group (fuel : nat) (chat_id : chat_ref) (message_id : Z)
  : M W (list Message) :=
  if message_id <=? 0 then raise InvalidArgument
  else
    target_message <- call_get_message chat_id message_id ;;
    match target_message with
    | None => raise (NotFound message_id)
    | Some target_message =>
        if negb (truthy (media_group_id target_message))
        then raise NotAGroupMember
        else
          let media_group_id0 := media_group_id target_message in
          media_group <- search_backwards fuel chat_id media_group_id0
                           [] message_id ;;
          media_group <- search_forwards fuel chat_id media_group_id0
                           media_group (message_id + 1) ;;
          match media_group with
          | [] => raise AssemblyFailure
          | _ :: _ => ret (sorted media_group)
          end
    end.
End GetMediaGroup.

(** ** A client that answers from a chat *)

(** The messages of a chat: the [media_group_id] stored under each id that
    exists ([PyNone] for a message outside any album). *)
Abbreviation chat := (gmap Z pyval).

Definition message_at (c : chat) (i : Z) : option Message :=
  mkMessage i <$> c !! i.

(** Python's [range(start, stop)]. *)
Definition py_range (start stop : Z) : list Z := seqZ start (stop - start).

(** Modelled from the spec: [Client.get_messages] itself is not among the
    sources.  A single id yields the message or nothing; a range yields the
    messages that exist, in the order of the ids asked for, and ids without a
    message are simply absent from the answer.  The chat is not changed. *)
Definition chat_client : Client chat := {|
  get_message := fun _ message_id c => (message_at c message_id, c);
  get_messages := fun _ start stop c =>
    (omap (message_at c) (py_range start stop), c)
|}.

Definition me : chat_ref := ChatStr "me".

(** [resolve fuel c seed]: the method run against the chat [c]. *)
Definition resolve (fuel : nat) (c : chat) (message_id : Z)
  : result (list Message) :=
  outcome (get_media_group chat_client fuel me message_id c).

(** ** Vocabulary of the statements *)

(** Ascending order of [id]. *)
Definition id_le (a b : Message) : Prop := id a <= id b.

(** The messages [lo .. hi] of the album [g]. *)
Definition album (g : pyval) (lo hi : Z) : list Message :=
  (fun i => mkMessage i g) <$> seqZ lo (hi + 1 - lo).

(** The calls of a backward scan that starts at [current_id]: every call
    asks for [range(max(1, current_id - 9), current_id + 1)] with
    [current_id >= 1], and the next call, if there is one, starts from a
    smaller [current_id] that is still at least 1. *)
Inductive backward_calls (chat_id : chat_ref) : Z -> list call -> Prop :=
| backward_calls_last current_id :
    1 <= current_id ->
    backward_calls chat_id current_id
      [GetRange chat_id (Z.max 1 (current_id - 9)) (current_id + 1)]
| backward_calls_more current_id next_id log :
    1 <= current_id ->
    1 <= next_id < current_id ->
    backward_calls chat_id next_id log ->
    backward_calls chat_id current_id
      (GetRange chat_id (Z.max 1 (current_id - 9)) (current_id + 1) :: log).

(** The ids a call asks for lie in [1 .. hi] and there is at least one. *)
Definition asks_within (hi : Z) (k : call) : Prop :=
  match k with
  | GetOne _ _ => False
  | GetRange _ start stop => 1 <= start /\ start < stop /\ stop <= hi + 1
  end.

(** The matches of a chunk are the messages [k .. current_id] in a row. *)
Definition block_ending_at (current_id : Z) (group_messages : list Message)
  : Prop :=
  exists k, k <= current_id
    /\ id <$> group_messages = seqZ k (current_id + 1 - k).

(** [i] belongs to the maximal contiguous run around [seed] of messages that
    carry [g]: every id from [i] to [seed] holds a message of [g]. *)
Definition in_run (c : chat) (g : pyval) (seed i : Z) : Prop :=
  forall j, Z.min i seed <= j <= Z.max i seed -> c !! j = Some g.

(** [l] holds every message of that run and no other message. *)
Definition exactly_the_run (c : chat) (g : pyval) (seed : Z)
    (l : list Message) : Prop :=
  forall m, m ∈ l <-> message_at c (id m) = Some m /\ in_run c g seed (id m).

(** The test of line 86 read the other way round: the matches of a
    backward chunk are taken when there is one and the first of them sits
    exactly [length - 1] ids below [current_id]. *)
Definition accepts (current_id : Z) (group_messages : list Message) : bool :=
  match head group_messages with
  | None => false
  | Some first =>
      id first =? current_id - Z.of_nat (length group_messages) + 1
  end.

(** A call of [get_message_chunk] on the chat [chat_id] for at least one and
    at most [n] ids. *)
Definition chunk_call (n : Z) (chat_id : chat_ref) (k : call) : Prop :=
  match k with
  | GetOne _ _ => False
  | GetRange chat_id' start stop =>
      chat_id' = chat_id /\ start < stop <= start + n
  end.

(** Strictly ascending [id]s. *)
Definition id_lt (a b : Message) : Prop := id a < id b.

(** [m] is the message that the chat holds under its id. *)
Definition in_chat (c : chat) (m : Message) : Prop :=
  message_at c (id m) = Some m.

(** ** Example chats *)

Definition G : pyval := PyInt 777.
Definition Other : pyval := PyInt 555.

Definition msg (i : Z) : Message := mkMessage i G.

(** 10 .. 14 are the album [G]; 9 has no album and 15 is of another one. *)
Definition chat_album : chat :=
  list_to_map [(9, PyNone); (10, G); (11, G); (12, G); (13, G); (14, G); (15, Other)].

(** 10 and 12 are of [G], 11 is not. *)
Definition chat_gap : chat :=
  list_to_map [(10, G); (11, PyNone); (12, G)].

(** The same with 11 deleted and a [str] identifier. *)
Definition chat_gap_deleted : chat :=
  list_to_map [(10, PyStr "album"); (12, PyStr "album")].

(** 10 and 12 are of [G], 11 is not, and 13 is of [G] again. *)
Definition chat_gap_then_more : chat :=
  list_to_map [(10, G); (11, Other); (12, G); (13, G)].

(** 10 .. 12 are of [G], 13 is not, 14 is. *)
Definition chat_gap_above : chat :=
  list_to_map [(10, G); (11, G); (12, G); (13, PyNone); (14, G)].

(** 10 .. 14 are of [G] and so is 5, five ids below. *)
Definition chat_stray_below : chat :=
  list_to_map [(5, G); (10, G); (11, G); (12, G); (13, G); (14, G)].

(** 1 .. 3 are the album [G], at the very start of the chat. *)
Definition chat_start : chat :=
  list_to_map [(1, G); (2, G); (3, G); (4, PyNone)].

(** 7 exists with the falsy identifiers [0] and the empty string; 8 exists
    without an album; 9 does not exist. *)
Definition chat_falsy : chat :=
  list_to_map [(6, PyStr EmptyString); (7, PyInt 0); (8, PyNone)].

(** * Properties *)

(** ** Python values and sorting *)

Lemma py_eq_true (v1 v2 : pyval) : py_eq v1 v2 = true -> v1 = v2.
Proof.
  destruct v1, v2; simpl; try discriminate; intros H.
  - reflexivity.
  - apply Z.eqb_eq in H. congruence.
  - apply String.eqb_eq in H. congruence.
Qed.

Lemma py_eq_refl (v : pyval) : py_eq v v = true.
Proof.
  destruct v; simpl; [reflexivity | apply Z.eqb_refl | apply String.eqb_refl].
Qed.


Lemma insert_by_id_perm (x : Message) (l : list Message) :
  Permutation (insert_by_id x l) (x :: l).
Proof.
  induction l as [|y l IH]; simpl; [reflexivity|].
  destruct (id x <=? id y); [reflexivity|].
  rewrite IH. apply perm_swap.
Qed.

Lemma sorted_perm (l : list Message) : Permutation (sorted l) l.
Proof.
  induction l as [|x l IH]; simpl; [reflexivity|].
  rewrite insert_by_id_perm. by constructor.
Qed.

Lemma insert_by_id_sorted (x : Message) (l : list Message) :
  Sorted id_le l -> Sorted id_le (insert_by_id x l).
Proof.
  induction 1 as [|y l Hl IH Hhd]; simpl.
  - repeat constructor.
  - destruct (id x <=? id y) eqn:E.
    + apply Z.leb_le in E. repeat constructor; assumption.
    + apply Z.leb_gt in E. constructor; [assumption|].
      destruct Hhd as [|z l' Hz]; simpl.
      * constructor. unfold id_le. lia.
      * destruct (id x <=? id z); constructor; unfold id_le in *; lia.
Qed.

Lemma sorted_Sorted (l : list Message) : Sorted id_le (sorted l).
Proof.
  induction l as [|x l IH]; simpl; [constructor|].
  by apply insert_by_id_sorted.
Qed.

(** A list that is already in ascending order is returned as it is. *)
Lemma sorted_id (l : list Message) : Sorted id_le l -> sorted l = l.
Proof.
  induction 1 as [|x l Hl IH Hhd]; simpl; [reflexivity|].
  rewrite IH. destruct Hhd as [|y l' Hy]; simpl; [reflexivity|].
  unfold id_le in Hy. by rewrite (proj2 (Z.leb_le _ _) Hy).
Qed.

(** ** Checking the ids of a range *)

(** A property of every id of a range, checked id by id. *)
Lemma on_range (P : Z -> Prop) `{!forall i, Decision (P i)} (lo n : Z) :
  Is_true (bool_decide (Forall P (seqZ lo n))) ->
  forall i, lo <= i < lo + n -> P i.
Proof. intros Hall. apply Forall_seqZ. by apply bool_decide_unpack in Hall. Qed.

Ltac by_range P lo n :=
  apply (on_range P lo n); [vm_compute; exact I | lia].

(** ** The scans against any client *)

Section AnyClient.
Context {W : Type} (self : Client W).

(** One iteration of each loop, with the answer of the client named. *)
Lemma search_backwards_S fuel chat_id g mg cur w :
  search_backwards self (S fuel) chat_id g mg cur w =
  let '(chunk, w1) :=
    get_messages self chat_id (Z.max 1 (cur - 9)) (cur + 1) w in
  let here := GetRange chat_id (Z.max 1 (cur - 9)) (cur + 1) in
  let group_messages := same_group g chunk in
  match head group_messages with
  | None => (Returns mg, w1, [here])
  | Some first =>
      if negb (id first =? cur - Z.of_nat (length group_messages) + 1)
      then (Returns mg, w1, [here])
      else if id first - 1 <=? 0
      then (Returns (group_messages ++ mg), w1, [here])
      else
        let '(r, w2, log) :=
          search_backwards self fuel chat_id g (group_messages ++ mg)
            (id first - 1) w1 in
        (r, w2, here :: log)
  end.
Proof.
  simpl. unfold bind, get_message_chunk.
  destruct (get_messages self chat_id _ _ w) as [chunk w1]. simpl.
  destruct (head (same_group g chunk)) as [first|]; [|reflexivity].
  destruct (negb _); [reflexivity|].
  destruct (id first - 1 <=? 0); [reflexivity|].
  destruct (search_backwards self fuel _ _ _ _ w1) as [[r w2] log].
  reflexivity.
Qed.

Lemma search_forwards_S fuel chat_id g mg cur w :
  search_forwards self (S fuel) chat_id g mg cur w =
  let '(chunk, w1) := get_messages self chat_id cur (cur + 9 + 1) w in
  let here := GetRange chat_id cur (cur + 9 + 1) in
  let group_messages := same_group g chunk in
  match last group_messages with
  | None => (Returns mg, w1, [here])
  | Some final =>
      let '(r, w2, log) :=
        search_forwards self fuel chat_id g (mg ++ group_messages)
          (id final + 1) w1 in
      (r, w2, here :: log)
  end.
Proof.
  simpl. unfold bind, get_message_chunk.
  destruct (get_messages self chat_id _ _ w) as [chunk w1]. simpl.
  destruct (last (same_group g chunk)) as [final|]; [|reflexivity].
  destruct (search_forwards self fuel _ _ _ _ w1) as [[r w2] log].
  reflexivity.
Qed.

(** Whatever holds of the accumulator and survives the addition of the
    matches of a chunk in front of it holds when the backward scan
    returns. *)
Lemma search_backwards_inv (P : list Message -> Prop) g :
  (forall chunk mg, P mg -> P (same_group g chunk ++ mg)) ->
  forall fuel chat_id mg cur w mg' w' log,
    P mg ->
    search_backwards self fuel chat_id g mg cur w = (Returns mg', w', log) ->
    P mg'.
Proof.
  intros Hstep fuel. induction fuel as [|fuel IH];
    intros chat_id mg cur w mg' w' log Hmg Hrun; [discriminate|].
  rewrite search_backwards_S in Hrun.
  destruct (get_messages self chat_id _ _ w) as [chunk w1].
  cbv zeta in Hrun.
  destruct (head (same_group g chunk)) as [first|]; [|congruence].
  destruct (negb _); [congruence|].
  destruct (id first - 1 <=? 0).
  - inversion Hrun; subst. by apply Hstep.
  - destruct (search_backwards self fuel _ _ _ _ w1) as [[r w2] log2] eqn:E.
    inversion Hrun; subst. eapply IH; [|exact E]. by apply Hstep.
Qed.

(** The same for the forward scan, which adds the matches at the end. *)
Lemma search_forwards_inv (P : list Message -> Prop) g :
  (forall chunk mg, P mg -> P (mg ++ same_group g chunk)) ->
  forall fuel chat_id mg cur w mg' w' log,
    P mg ->
    search_forwards self fuel chat_id g mg cur w = (Returns mg', w', log) ->
    P mg'.
Proof.
  intros Hstep fuel. induction fuel as [|fuel IH];
    intros chat_id mg cur w mg' w' log Hmg Hrun; [discriminate|].
  rewrite search_forwards_S in Hrun.
  destruct (get_messages self chat_id _ _ w) as [chunk w1].
  cbv zeta in Hrun.
  destruct (last (same_group g chunk)) as [final|]; [|congruence].
  destruct (search_forwards self fuel _ _ _ _ w1) as [[r w2] log2] eqn:E.
  inversion Hrun; subst. eapply IH; [|exact E]. by apply Hstep.
Qed.

Lemma same_group_Forall g chunk :
  Forall (fun m => media_group_id m = g) (same_group g chunk).
Proof.
  apply List.Forall_forall. intros m Hm.
  apply List.filter_In in Hm as [_ Hm]. by apply py_eq_true.
Qed.
End AnyClient.

(** ** The checks before the scans, and what is returned *)

Section Validation.
Context {W : Type} (self : Client W).

(** C6.  A [message_id] that is zero or negative makes the method raise the
    [ValueError] of line 59, whatever the chat, and no call of
    [get_messages] is made: the log of calls is empty and the remote state is
    the one the method started in. *)
Theorem get_media_group_invalid_argument fuel chat_id message_id w :
  message_id <= 0 ->
  get_media_group self fuel chat_id message_id w = (Raises InvalidArgument, w, []).
Proof.
  intros H. unfold get_media_group.
  by rewrite (proj2 (Z.leb_le _ _) H).
Qed.

(** What the method does once the seed has been looked up and found
    falsy or missing: shared by the two statements below. *)
Lemma get_media_group_seed_rejected fuel chat_id message_id w :
  0 < message_id ->
  forall r,
    (get_message self chat_id message_id w).1 = r ->
    match r with
    | None => True
    | Some m => truthy (media_group_id m) = false
    end ->
    outcome (get_media_group self fuel chat_id message_id w) =
      Raises (match r with None => NotFound message_id | Some _ => NotAGroupMember end)
    /\ calls (get_media_group self fuel chat_id message_id w) =
      [GetOne chat_id message_id].
Proof.
  intros Hpos r Hr Hfalsy. unfold get_media_group, outcome, calls.
  rewrite (proj2 (Z.leb_gt _ _) Hpos).
  unfold bind, call_get_message.
  destruct (get_message self chat_id message_id w) as [t w1].
  simpl in Hr. subst t. destruct r as [m|]; simpl.
  - rewrite Hfalsy. simpl. done.
  - done.
Qed.

(** C7.  For a positive [message_id]: when the lookup of the seed yields
    nothing the method raises the "not found" error, and when it yields a
    message whose [media_group_id] is [None] the method raises the "doesn't
    belong to a media group" error; in both cases the lookup of the seed is
    the only call made, so neither scan has fetched a chunk. *)
Theorem get_media_group_seed_errors fuel chat_id message_id w :
  0 < message_id ->
  ((get_message self chat_id message_id w).1 = None ->
   outcome (get_media_group self fuel chat_id message_id w)
     = Raises (NotFound message_id)
   /\ calls (get_media_group self fuel chat_id message_id w)
     = [GetOne chat_id message_id])
  /\
  (forall m,
     (get_message self chat_id message_id w).1 = Some m ->
     media_group_id m = PyNone ->
     outcome (get_media_group self fuel chat_id message_id w)
       = Raises NotAGroupMember
     /\ calls (get_media_group self fuel chat_id message_id w)
       = [GetOne chat_id message_id]).
Proof.
  intros Hpos. split.
  - intros Hnone.
    by apply (get_media_group_seed_rejected fuel chat_id message_id w Hpos None).
  - intros m Hm Hg.
    apply (get_media_group_seed_rejected fuel chat_id message_id w Hpos (Some m) Hm).
    by rewrite Hg.
Qed.

(** C10.  The membership test of line 67 is a truthiness test: a seed whose
    [media_group_id] is present but falsy, such as the integer [0] or the
    empty string, is rejected with the "doesn't belong to a media group"
    error exactly like a seed without one, after the single lookup. *)
Theorem get_media_group_falsy_group_id fuel chat_id message_id w m :
  0 < message_id ->
  (get_message self chat_id message_id w).1 = Some m ->
  media_group_id m <> PyNone ->
  truthy (media_group_id m) = false ->
  (truthy (PyInt 0) = false /\ truthy (PyStr EmptyString) = false)
  /\ outcome (get_media_group self fuel chat_id message_id w)
       = Raises NotAGroupMember
  /\ calls (get_media_group self fuel chat_id message_id w)
       = [GetOne chat_id message_id]
  /\ error_message NotAGroupMember
       = "The message doesn't belong to a media group"%string.
Proof.
  intros Hpos Hm _ Hg. split; [by split|].
  destruct (get_media_group_seed_rejected fuel chat_id message_id w Hpos
              (Some m) Hm Hg) as [Hout Hcalls].
  by rewrite Hout, Hcalls.
Qed.

(** C5.  When the method returns a list, the lookup of the seed had found a
    target message, every message of the list carries the target's
    [media_group_id], and the list is in ascending order of [id]. *)
Theorem get_media_group_same_group_ascending fuel chat_id message_id w l :
  outcome (get_media_group self fuel chat_id message_id w) = Returns l ->
  exists target,
    (get_message self chat_id message_id w).1 = Some target
    /\ Forall (fun m => media_group_id m = media_group_id target) l
    /\ Sorted id_le l.
Proof.
  unfold get_media_group, outcome.
  destruct (message_id <=? 0); [discriminate|].
  unfold bind at 1. unfold call_get_message.
  destruct (get_message self chat_id message_id w) as [[target|] w1];
    [|discriminate].
  cbn [fst snd]. destruct (negb _); [discriminate|].
  set (g := media_group_id target).
  unfold bind.
  destruct (search_backwards self fuel chat_id g [] message_id w1)
    as [[[mg1| |] w2] log1] eqn:Eb; try discriminate.
  destruct (search_forwards self fuel chat_id g mg1 (message_id + 1) w2)
    as [[[mg2| |] w3] log2] eqn:Ef; try discriminate.
  destruct mg2 as [|m0 mg2]; [discriminate|].
  cbn [fst]. intros [= <-]. exists target. split; [reflexivity|].
  change (insert_by_id m0 (sorted mg2)) with (sorted (m0 :: mg2)).
  split; [|apply sorted_Sorted].
  assert (H1 : Forall (fun m => media_group_id m = g) mg1).
  { eapply (search_backwards_inv self _ g); [| |exact Eb]; [|constructor].
    intros chunk mg Hmg. apply Forall_app. split; [apply same_group_Forall|done]. }
  assert (H2 : Forall (fun m => media_group_id m = g) (m0 :: mg2)).
  { eapply (search_forwards_inv self _ g); [| |exact Ef]; [|exact H1].
    intros chunk mg Hmg. apply Forall_app. split; [done|apply same_group_Forall]. }
  eapply Permutation_Forall; [|exact H2].
  symmetry. apply sorted_perm.
Qed.
End Validation.

Lemma get_media_group_invalid_argument_witness :
  0 <= 0
  /\ get_media_group chat_client 20 me 0 chat_album
     = (Raises InvalidArgument, chat_album, []).
Proof.
  split; [lia|].
  apply (get_media_group_invalid_argument chat_client 20 me 0 chat_album). lia.
Defined.

Lemma get_media_group_seed_errors_witness :
  (outcome (get_media_group chat_client 20 me 9 chat_falsy)
     = Raises (NotFound 9)
   /\ calls (get_media_group chat_client 20 me 9 chat_falsy) = [GetOne me 9])
  /\
  (outcome (get_media_group chat_client 20 me 8 chat_falsy)
     = Raises NotAGroupMember
   /\ calls (get_media_group chat_client 20 me 8 chat_falsy) = [GetOne me 8]).
Proof.
  split.
  - apply (proj1 (get_media_group_seed_errors chat_client 20 me 9 chat_falsy
                    ltac:(lia)));
      reflexivity.
  - apply (proj2 (get_media_group_seed_errors chat_client 20 me 8 chat_falsy
                    ltac:(lia)) (mkMessage 8 PyNone));
      reflexivity.
Defined.

Lemma get_media_group_falsy_group_id_witness :
  outcome (get_media_group chat_client 20 me 7 chat_falsy)
    = Raises NotAGroupMember
  /\ outcome (get_media_group chat_client 20 me 6 chat_falsy)
    = Raises NotAGroupMember.
Proof.
  split.
  - apply (get_media_group_falsy_group_id chat_client 20 me 7 chat_falsy
             (mkMessage 7 (PyInt 0))); [lia | reflexivity | discriminate | reflexivity].
  - apply (get_media_group_falsy_group_id chat_client 20 me 6 chat_falsy
             (mkMessage 6 (PyStr EmptyString)));
      [lia | reflexivity | discriminate | reflexivity].
Defined.

Lemma get_media_group_same_group_ascending_witness :
  outcome (get_media_group chat_client 20 me 12 chat_gap_above)
    = Returns [msg 10; msg 11; msg 12; msg 14]
  /\ exists target,
       (get_message chat_client me 12 chat_gap_above).1 = Some target
       /\ Forall (fun m => media_group_id m = media_group_id target)
            [msg 10; msg 11; msg 12; msg 14]
       /\ Sorted id_le [msg 10; msg 11; msg 12; msg 14].
Proof.
  split; [by vm_compute|].
  apply (get_media_group_same_group_ascending chat_client 20 me 12
           chat_gap_above). by vm_compute.
Defined.

(** ** Termination of the backward scan *)

Lemma backward_calls_within chat_id current_id log :
  backward_calls chat_id current_id log -> Forall (asks_within current_id) log.
Proof.
  induction 1 as [cur Hcur|cur next log Hcur Hnext _ IH].
  - repeat constructor; simpl; lia.
  - constructor; [simpl; lia|].
    eapply Forall_impl; [exact IH|].
    intros [|? start stop]; simpl; [done|lia].
Qed.

Section Termination.
Context {W : Type} (self : Client W).

Lemma search_backwards_returns fuel chat_id g :
  forall current_id media_group w,
    1 <= current_id ->
    (Z.to_nat current_id <= fuel)%nat ->
    exists media_group' w' log,
      search_backwards self fuel chat_id g media_group current_id w
        = (Returns media_group', w', log)
      /\ backward_calls chat_id current_id log.
Proof.
  induction fuel as [|fuel IH]; intros cur mg w Hcur Hfuel; [lia|].
  rewrite search_backwards_S.
  destruct (get_messages self chat_id _ _ w) as [chunk w1]. cbv zeta.
  pose proof (backward_calls_last chat_id cur Hcur) as Hlast.
  destruct (same_group g chunk) as [|first rest] eqn:E; cbn [head];
    [eauto|].
  destruct (id first =? _) eqn:Echeck; cbn [negb]; [|eauto].
  apply Z.eqb_eq in Echeck. cbn [length] in Echeck.
  destruct (id first - 1 <=? 0) eqn:Estop; [eauto|].
  apply Z.leb_gt in Estop.
  destruct (IH (id first - 1) ((first :: rest) ++ mg) w1)
    as (mg' & w' & log & -> & Hlog); [lia|lia|].
  do 3 eexists. split; [reflexivity|].
  apply backward_calls_more with (next_id := id first - 1); [lia|lia|done].
Qed.
End Termination.

(** ** When the accumulator cannot be empty *)

Lemma block_ending_at_check current_id group_messages :
  block_ending_at current_id group_messages ->
  exists first rest,
    group_messages = first :: rest
    /\ id first = current_id - Z.of_nat (length group_messages) + 1.
Proof.
  intros (k & Hk & Hids).
  assert (Hlen : length group_messages = Z.to_nat (current_id + 1 - k)).
  { by rewrite <- (length_fmap id), Hids, length_seqZ. }
  destruct group_messages as [|first rest]; [cbn in Hlen; lia|].
  exists first, rest. split; [reflexivity|].
  rewrite seqZ_cons in Hids by lia. cbn in Hids.
  injection Hids as Hfirst _. rewrite Hlen. lia.
Qed.

Section NonEmpty.
Context {W : Type} (self : Client W).

Lemma search_backwards_nonempty fuel chat_id g current_id w mg' w' log :
  block_ending_at current_id
    (same_group g
       (get_messages self chat_id (Z.max 1 (current_id - 9))
          (current_id + 1) w).1) ->
  search_backwards self fuel chat_id g [] current_id w
    = (Returns mg', w', log) ->
  mg' <> [].
Proof.
  intros Hblock Hrun. destruct fuel as [|fuel]; [discriminate|].
  rewrite search_backwards_S in Hrun.
  destruct (get_messages self chat_id _ _ w) as [chunk w1].
  cbn [fst] in Hblock. cbv zeta in Hrun.
  apply block_ending_at_check in Hblock as (first & rest & E & Hcheck).
  rewrite E in Hrun, Hcheck. cbn [head] in Hrun.
  rewrite (proj2 (Z.eqb_eq _ _) Hcheck) in Hrun. cbn [negb] in Hrun.
  destruct (id first - 1 <=? 0); [by inversion Hrun|].
  destruct (search_backwards self fuel _ _ _ _ w1) as [[r w2] log2] eqn:Erec.
  inversion Hrun; subst.
  eapply (search_backwards_inv self (fun mg => mg <> []) g); [| |exact Erec].
  - intros chunk' mg Hmg Happ. by apply app_eq_nil in Happ as [_ ?].
  - done.
Qed.

Lemma search_forwards_nonempty fuel chat_id g mg current_id w mg' w' log :
  mg <> [] ->
  search_forwards self fuel chat_id g mg current_id w
    = (Returns mg', w', log) ->
  mg' <> [].
Proof.
  intros Hmg. apply (search_forwards_inv self (fun mg => mg <> []) g);
    [|done].
  intros chunk' mg0 Hmg0 Happ. by apply app_eq_nil in Happ as [? _].
Qed.

(** The loops raise nothing themselves. *)
Lemma search_backwards_no_raise fuel chat_id g :
  forall mg current_id w e w' log,
    search_backwards self fuel chat_id g mg current_id w
      <> (Raises e, w', log).
Proof.
  induction fuel as [|fuel IH]; intros mg cur w e w' log; [discriminate|].
  rewrite search_backwards_S.
  destruct (get_messages self chat_id _ _ w) as [chunk w1]. cbv zeta.
  destruct (head (same_group g chunk)) as [first|]; [|discriminate].
  destruct (negb _); [discriminate|].
  destruct (id first - 1 <=? 0); [discriminate|].
  destruct (search_backwards self fuel _ _ _ _ w1) as [[r w2] log2] eqn:E.
  intros [= -> -> <-]. by apply IH in E.
Qed.

Lemma search_forwards_no_raise fuel chat_id g :
  forall mg current_id w e w' log,
    search_forwards self fuel chat_id g mg current_id w
      <> (Raises e, w', log).
Proof.
  induction fuel as [|fuel IH]; intros mg cur w e w' log; [discriminate|].
  rewrite search_forwards_S.
  destruct (get_messages self chat_id _ _ w) as [chunk w1]. cbv zeta.
  destruct (last (same_group g chunk)) as [final|]; [|discriminate].
  destruct (search_forwards self fuel _ _ _ _ w1) as [[r w2] log2] eqn:E.
  intros [= -> -> <-]. by apply IH in E.
Qed.
End NonEmpty.

(** Whatever the client answers: if the lookup of the seed succeeds and the
    matches of the first backward chunk are the messages of some ids
    [k .. message_id] in a row, the method does not fail with the "failed
    to retrieve" error.  This is a sufficient condition only; the exact one
    is stated further down. *)
Theorem get_media_group_assembles {W : Type} (self : Client W) (fuel : nat)
    (chat_id : chat_ref) (message_id : Z) (w w1 : W) (target : Message) :
  get_message self chat_id message_id w = (Some target, w1) ->
  block_ending_at message_id
    (same_group (media_group_id target)
       (get_messages self chat_id (Z.max 1 (message_id - 9))
          (message_id + 1) w1).1) ->
  outcome (get_media_group self fuel chat_id message_id w)
    <> Raises AssemblyFailure.
Proof.
  intros Hseed Hblock. unfold get_media_group, outcome.
  destruct (message_id <=? 0); [discriminate|].
  unfold bind at 1. unfold call_get_message. rewrite Hseed.
  destruct (negb _); [discriminate|]. unfold bind.
  destruct (search_backwards self fuel chat_id _ [] message_id w1)
    as [[[mg1|e|] w2] log1] eqn:Eb;
    [|by apply search_backwards_no_raise in Eb|discriminate].
  apply search_backwards_nonempty in Eb; [|done].
  destruct (search_forwards self fuel chat_id _ mg1 (message_id + 1) w2)
    as [[[mg2|e|] w3] log2] eqn:Ef;
    [|by apply search_forwards_no_raise in Ef|discriminate].
  apply search_forwards_nonempty in Ef; [|done].
  destruct mg2; [done|discriminate].
Qed.

Lemma get_media_group_assembles_witness :
  get_message chat_client me 12 chat_album = (Some (msg 12), chat_album)
  /\ outcome (get_media_group chat_client 20 me 12 chat_album)
       <> Raises AssemblyFailure.
Proof.
  split; [reflexivity|].
  apply (get_media_group_assembles chat_client 20 me 12 chat_album chat_album
           (msg 12)); [reflexivity|].
  exists 10. split; [lia|]. by vm_compute.
Defined.

(** C3.  The "failed to retrieve" branch of lines 103-104 is reached after
    a successful lookup of the seed, by a client that answers every call
    from one unchanged chat.  In the chat that holds the album on 10 and 12
    and nothing on 11, the seed 12 is found and carries the album; its
    backward chunk, ids 3 to 12, holds the matches 10 and 12, which the
    test of line 86 rejects together, the seed included; the forward chunk,
    ids 13 to 22, is empty; the method raises.  Called on 10 in the same
    chat the method returns 10 and 12. *)
Theorem get_media_group_assembly_failure :
  get_message chat_client me 12 chat_gap_deleted
    = (Some (mkMessage 12 (PyStr "album")), chat_gap_deleted)
  /\ truthy (PyStr "album") = true
  /\ same_group (PyStr "album")
       (get_messages chat_client me (Z.max 1 (12 - 9)) (12 + 1)
          chat_gap_deleted).1
     = [mkMessage 10 (PyStr "album"); mkMessage 12 (PyStr "album")]
  /\ search_backwards chat_client 20 me (PyStr "album") [] 12
       chat_gap_deleted
     = (Returns [], chat_gap_deleted, [GetRange me 3 13])
  /\ get_media_group chat_client 20 me 12 chat_gap_deleted
     = (Raises AssemblyFailure, chat_gap_deleted,
        [GetOne me 12; GetRange me 3 13; GetRange me 13 23])
  /\ error_message AssemblyFailure = "Failed to retrieve the media group"%string
  /\ resolve 20 chat_gap_deleted 10
     = Returns [mkMessage 10 (PyStr "album"); mkMessage 12 (PyStr "album")].
Proof. repeat split; by vm_compute. Qed.

(** ** The scans against a chat *)

Section Chat.
Context (c : chat) (g : pyval).

Lemma same_group_fetch_none (ids : list Z) :
  (forall i, i ∈ ids -> c !! i <> Some g) ->
  same_group g (omap (message_at c) ids) = [].
Proof.
  induction ids as [|i ids IH]; intros H; [reflexivity|].
  cbn [omap list_omap]. unfold message_at at 1.
  assert (Hi := H i (list_elem_of_here _ _)).
  assert (Hrest : same_group g (omap (message_at c) ids) = []).
  { apply IH. intros j Hj. apply H. by right. }
  destruct (c !! i) as [v|] eqn:E; cbn; [|exact Hrest].
  destruct (py_eq v g) eqn:Ev; [|exact Hrest].
  apply py_eq_true in Ev. congruence.
Qed.

Lemma same_group_fetch_all (ids : list Z) :
  (forall i, i ∈ ids -> c !! i = Some g) ->
  same_group g (omap (message_at c) ids) = (fun i => mkMessage i g) <$> ids.
Proof.
  induction ids as [|i ids IH]; intros H; [reflexivity|].
  cbn [omap list_omap]. unfold message_at at 1.
  rewrite (H i (list_elem_of_here _ _)). cbn.
  rewrite py_eq_refl. f_equal. apply IH. intros j Hj. apply H. by right.
Qed.

Lemma same_group_app (l1 l2 : list Message) :
  same_group g (l1 ++ l2) = same_group g l1 ++ same_group g l2.
Proof. apply List.filter_app. Qed.

(** The matches of the chunk [lo .. hi] when the album occupies exactly
    its part [mid .. hi']. *)
Lemma same_group_chunk (lo mid hi' hi : Z) :
  lo <= mid -> mid <= hi' + 1 -> hi' <= hi ->
  (forall i, lo <= i < mid -> c !! i <> Some g) ->
  (forall i, mid <= i <= hi' -> c !! i = Some g) ->
  (forall i, hi' < i <= hi -> c !! i <> Some g) ->
  same_group g (omap (message_at c) (py_range lo (hi + 1))) = album g mid hi'.
Proof.
  intros H1 H2 H3 Hbelow Hin Habove. unfold py_range, album.
  replace (hi + 1 - lo) with ((mid - lo) + ((hi' + 1 - mid) + (hi - hi')))
    by lia.
  rewrite seqZ_app by lia. rewrite seqZ_app by lia.
  rewrite !omap_app, !same_group_app.
  rewrite same_group_fetch_none.
  2:{ intros i Hi. apply elem_of_seqZ in Hi. apply Hbelow. lia. }
  replace (lo + (mid - lo)) with mid by lia.
  rewrite same_group_fetch_all.
  2:{ intros i Hi. apply elem_of_seqZ in Hi. apply Hin. lia. }
  rewrite same_group_fetch_none.
  2:{ intros i Hi. apply elem_of_seqZ in Hi. apply Habove. lia. }
  by rewrite app_nil_r.
Qed.

Lemma album_empty (lo hi : Z) : hi < lo -> album g lo hi = [].
Proof. intros H. unfold album. by rewrite seqZ_nil by lia. Qed.

Lemma album_app (lo mid hi : Z) :
  lo <= mid + 1 -> mid <= hi ->
  album g lo mid ++ album g (mid + 1) hi = album g lo hi.
Proof.
  intros H1 H2. unfold album. rewrite <- fmap_app.
  replace (hi + 1 - lo) with ((mid + 1 - lo) + (hi + 1 - (mid + 1))) by lia.
  rewrite seqZ_app by lia. do 3 f_equal. lia.
Qed.

Lemma length_album (lo hi : Z) :
  length (album g lo hi) = Z.to_nat (hi + 1 - lo).
Proof. unfold album. by rewrite length_fmap, length_seqZ. Qed.

Lemma head_album (lo hi : Z) :
  lo <= hi -> head (album g lo hi) = Some (mkMessage lo g).
Proof.
  intros H. unfold album. rewrite seqZ_cons by lia. reflexivity.
Qed.

Lemma last_album (lo hi : Z) :
  lo <= hi -> last (album g lo hi) = Some (mkMessage hi g).
Proof.
  intros H. rewrite last_lookup, length_album. unfold album.
  rewrite list_lookup_fmap, lookup_seqZ_lt by lia. cbn. do 2 f_equal. lia.
Qed.

Lemma album_Sorted (lo hi : Z) : Sorted id_le (album g lo hi).
Proof.
  unfold album. generalize (hi + 1 - lo). intros n.
  destruct (Z.le_gt_cases n 0) as [Hn|Hn]; [rewrite seqZ_nil by lia; constructor|].
  rewrite <- (Z2Nat.id n) by lia. generalize (Z.to_nat n). clear. intros k.
  revert lo. induction k as [|k IH]; intros lo; [constructor|].
  rewrite seqZ_cons by lia. cbn. constructor.
  - replace (Z.pred (Z.of_nat (S k))) with (Z.of_nat k) by lia. apply IH.
  - destruct k as [|k]; [constructor|].
    rewrite seqZ_cons by lia. constructor. unfold id_le. cbn. lia.
Qed.

Lemma elem_of_album (lo hi : Z) (m : Message) :
  m ∈ album g lo hi <-> media_group_id m = g /\ lo <= id m <= hi.
Proof.
  unfold album. rewrite list_elem_of_fmap. setoid_rewrite elem_of_seqZ.
  split.
  - intros (i & -> & Hi). cbn. split; [reflexivity|lia].
  - intros (Hg & Hi). exists (id m). split; [|lia]. destruct m; cbn in *. by subst.
Qed.
End Chat.

Section ChatScans.
Context (c : chat) (g : pyval).

(** A chunk that ends just below an album whose nine ids below hold no
    other message of the album stops the backward scan without change:
    the only id of the chunk that could still match is the tenth below,
    which does not end at the right edge of the chunk. *)
Lemma search_backwards_chat_stop fuel mg a :
  2 <= a ->
  (forall i, Z.max 1 (a - 9) <= i < a -> c !! i <> Some g) ->
  exists log,
    search_backwards chat_client (S fuel) me g mg (a - 1) c
    = (Returns mg, c, log).
Proof.
  intros Ha Hbelow. rewrite search_backwards_S. cbn [chat_client get_messages].
  destruct (decide (c !! (a - 10) = Some g /\ 1 <= a - 10)) as [[Hg H10]|Hno].
  - rewrite (same_group_chunk c g _ (a - 10) (a - 10) (a - 1)); try lia.
    + rewrite head_album, length_album by lia. cbn [id].
      replace (a - 10 =? _) with false by (symmetry; apply Z.eqb_neq; lia).
      cbn. eauto.
    + intros i Hi. replace i with (a - 10) by lia. done.
    + intros i Hi. apply Hbelow. lia.
  - rewrite same_group_fetch_none; [cbn; eauto|].
    intros i Hi Hg. apply elem_of_seqZ in Hi.
    destruct (decide (i = a - 10)) as [->|Hne]; [apply Hno; split; [done|lia]|].
    apply (Hbelow i); [lia|done].
Qed.

(** The backward scan from inside an album that starts at [a]. *)
Lemma search_backwards_chat a :
  1 <= a ->
  (forall i, Z.max 1 (a - 9) <= i < a -> c !! i <> Some g) ->
  forall fuel cur mg,
    a <= cur ->
    (forall i, a <= i <= cur -> c !! i = Some g) ->
    (Z.to_nat (cur - a) + 2 <= fuel)%nat ->
    exists log,
      search_backwards chat_client fuel me g mg cur c
      = (Returns (album g a cur ++ mg), c, log).
Proof.
  intros Ha Hbelow fuel. induction fuel as [|fuel IH];
    intros cur mg Hcur Hin Hfuel; [lia|].
  rewrite search_backwards_S. cbn [chat_client get_messages].
  destruct (Z.le_gt_cases (cur - 9) a) as [Hreach|Hfar].
  - (* the chunk reaches the first message of the album *)
    rewrite (same_group_chunk c g _ a cur cur); try lia; try done.
    2:{ intros i Hi. apply Hbelow. lia. }
    rewrite head_album, length_album by lia. cbn [id].
    replace (a =? _) with true by (symmetry; apply Z.eqb_eq; lia).
    cbn [negb]. destruct (a - 1 <=? 0) eqn:E; [eauto|].
    apply Z.leb_gt in E.
    destruct fuel as [|fuel]; [lia|].
    destruct (search_backwards_chat_stop fuel (album g a cur ++ mg) a)
      as [log ->]; [lia|done|]. eauto.
  - (* the whole chunk lies inside the album *)
    rewrite (same_group_chunk c g _ (cur - 9) cur cur); try lia.
    2:{ intros i Hi. apply Hin. lia. }
    rewrite head_album, length_album by lia. cbn [id].
    replace (cur - 9 =? _) with true by (symmetry; apply Z.eqb_eq; lia).
    cbn [negb]. replace (cur - 9 - 1 <=? 0) with false
      by (symmetry; apply Z.leb_gt; lia).
    destruct (IH (cur - 9 - 1) (album g (cur - 9) cur ++ mg)) as [log ->].
    + lia.
    + intros i Hi. apply Hin. lia.
    + lia.
    + rewrite app_assoc, <- (album_app g a (cur - 9 - 1) cur) by lia.
      replace (cur - 9 - 1 + 1) with (cur - 9) by lia. eauto.
Qed.

(** The forward scan from inside (or just past) an album that ends at
    [b]. *)
Lemma search_forwards_chat b :
  (forall i, b < i <= b + 10 -> c !! i <> Some g) ->
  forall fuel cur mg,
    cur <= b + 1 ->
    (forall i, cur <= i <= b -> c !! i = Some g) ->
    (Z.to_nat (b + 1 - cur) + 1 <= fuel)%nat ->
    exists log,
      search_forwards chat_client fuel me g mg cur c
      = (Returns (mg ++ album g cur b), c, log).
Proof.
  intros Habove fuel. induction fuel as [|fuel IH];
    intros cur mg Hcur Hin Hfuel; [lia|].
  rewrite search_forwards_S. cbn [chat_client get_messages].
  destruct (decide (cur = b + 1)) as [->|Hne].
  - rewrite same_group_fetch_none.
    + cbn. rewrite album_empty, app_nil_r by lia. eauto.
    + intros i Hi. apply elem_of_seqZ in Hi. apply Habove. lia.
  - set (e := Z.min b (cur + 9)).
    rewrite (same_group_chunk c g _ cur e (cur + 9)); try lia.
    2:{ intros i Hi. apply Hin. lia. }
    2:{ intros i Hi. apply Habove. lia. }
    rewrite last_album by lia. cbn [id].
    destruct (IH (e + 1) (mg ++ album g cur e)) as [log ->].
    + lia.
    + intros i Hi. apply Hin. lia.
    + lia.
    + rewrite <- app_assoc, album_app by lia. eauto.
Qed.

(** The method on a seed inside the album [a .. b] of a chat that holds
    no other message of the album in the nine ids below [a] (as far as
    they are positive) and the ten ids above [b]. *)
Lemma resolve_album (s a b : Z) (fuel : nat) :
  truthy g = true ->
  1 <= a -> a <= s -> s <= b ->
  (forall i, a <= i <= b -> c !! i = Some g) ->
  (forall i, Z.max 1 (a - 9) <= i < a -> c !! i <> Some g) ->
  (forall i, b < i <= b + 10 -> c !! i <> Some g) ->
  (Z.to_nat (b - a) + 2 <= fuel)%nat ->
  resolve fuel c s = Returns (album g a b).
Proof.
  intros Hg Ha Has Hsb Hin Hbelow Habove Hfuel.
  unfold resolve, outcome, get_media_group.
  replace (s <=? 0) with false by (symmetry; apply Z.leb_gt; lia).
  unfold bind at 1. unfold call_get_message. cbn [chat_client get_message].
  unfold message_at. rewrite (Hin s) by lia. cbn [fmap option_fmap option_map media_group_id].
  rewrite Hg. cbn [negb]. unfold bind.
  destruct (search_backwards_chat a Ha Hbelow fuel s []) as [log1 ->];
    [lia|intros i Hi; apply Hin; lia|lia|].
  destruct (search_forwards_chat b Habove fuel (s + 1) (album g a s ++ []))
    as [log2 ->]; [lia|intros i Hi; apply Hin; lia|lia|].
  rewrite app_nil_r, album_app by lia.
  destruct (album g a b) as [|m l] eqn:E.
  - apply (f_equal length) in E. rewrite length_album in E. cbn in E. lia.
  - rewrite <- E. unfold ret. cbn [fst]. f_equal.
    apply sorted_id, album_Sorted.
Qed.
End ChatScans.

Lemma in_run_album (c : chat) (g : pyval) (seed a b : Z) :
  a <= seed <= b ->
  (forall i, a <= i <= b -> c !! i = Some g) ->
  c !! (a - 1) <> Some g ->
  c !! (b + 1) <> Some g ->
  forall i, in_run c g seed i <-> a <= i <= b.
Proof.
  intros Hs Hin Ha Hb i. unfold in_run. split.
  - intros Hrun.
    destruct (Z.lt_ge_cases i a) as [Hlt|Hge].
    { exfalso. apply Ha, Hrun. lia. }
    destruct (Z.lt_ge_cases b i) as [Hlt|Hle]; [|lia].
    exfalso. apply Hb, Hrun. lia.
  - intros Hi j Hj. apply Hin. lia.
Qed.

(** ** The album around the seed *)

(** C1, as amended.  Let the maximal contiguous run around a seed that
    carries a truthy [media_group_id] be the ids [a .. b].  If no other
    message with that [media_group_id] lies in the nine ids below [a] or in
    the ten ids above [b], the method succeeds (with enough fuel for its
    loops) and returns exactly the messages of the run: each of them is in
    the list and no other message is. *)
Theorem get_media_group_returns_run (c : chat) (g : pyval) (seed a b : Z)
    (fuel : nat) :
  truthy g = true ->
  1 <= a -> a <= seed -> seed <= b ->
  (forall i, a <= i <= b -> c !! i = Some g) ->
  (forall i, a - 9 <= i < a -> c !! i <> Some g) ->
  (forall i, b < i <= b + 10 -> c !! i <> Some g) ->
  (Z.to_nat (b - a) + 2 <= fuel)%nat ->
  resolve fuel c seed = Returns (album g a b)
  /\ exactly_the_run c g seed (album g a b).
Proof.
  intros Hg Ha Has Hsb Hin Hbelow Habove Hfuel. split.
  - apply resolve_album; try done. intros i Hi. apply Hbelow. lia.
  - intros m. rewrite elem_of_album.
    rewrite (in_run_album c g seed a b); [|lia|done|apply Hbelow; lia|apply Habove; lia].
    unfold message_at. split.
    + intros [Hm Hi]. split; [|done]. rewrite (Hin _ Hi). destruct m; cbn in *.
      by subst.
    + intros [Hm Hi]. split; [|done]. rewrite (Hin _ Hi) in Hm. cbn in Hm.
      by injection Hm as <-.
Qed.

Lemma get_media_group_returns_run_witness :
  resolve 6 chat_album 12 = Returns (album G 10 14)
  /\ exactly_the_run chat_album G 12 (album G 10 14).
Proof.
  apply (get_media_group_returns_run chat_album G 12 10 14 6);
    [reflexivity | lia | lia | lia | | | | lia].
  - intros i Hi. by_range (fun i => chat_album !! i = Some G) 10 5.
  - intros i Hi. by_range (fun i => chat_album !! i <> Some G) 1 9.
  - intros i Hi. by_range (fun i => chat_album !! i <> Some G) 15 10.
Defined.

(** The claim as it was stated fails in both directions.  With a message of
    the album two ids above the run, the forward scan takes it although it
    is outside the run; with one five ids below the run, the backward scan
    rejects its first chunk and the run's lower part, the seed included, is
    missing. *)
Lemma get_media_group_not_the_run :
  (chat_gap_above !! 12 = Some G
   /\ truthy G = true
   /\ resolve 20 chat_gap_above 12 = Returns [msg 10; msg 11; msg 12; msg 14]
   /\ ~ exactly_the_run chat_gap_above G 12 [msg 10; msg 11; msg 12; msg 14])
  /\
  (chat_stray_below !! 12 = Some G
   /\ resolve 20 chat_stray_below 12 = Returns [msg 13; msg 14]
   /\ ~ exactly_the_run chat_stray_below G 12 [msg 13; msg 14]).
Proof.
  split.
  - do 3 (split; [by vm_compute|]).
    intros Hrun. destruct (proj1 (Hrun (msg 14))) as [_ H14].
    { repeat constructor. }
    specialize (H14 13). cbn in H14.
    assert (E : chat_gap_above !! 13 = Some G) by (apply H14; lia).
    vm_compute in E. discriminate.
  - do 2 (split; [by vm_compute|]).
    intros Hrun. assert (Hin : msg 12 ∈ [msg 13; msg 14]).
    { apply Hrun. split; [by vm_compute|].
      intros j Hj. cbn in Hj. replace j with 12 by lia. by vm_compute. }
    apply list_elem_of_In in Hin. cbn in Hin. unfold msg in Hin.
    intuition discriminate.
Qed.

(** C4.  In a chat where the messages 10 to 14 all carry the truthy
    [media_group_id] [g] and the ids the scans fetch around them (1 to 9 and
    15 to 24, the neighbours 9 and 15 among them) hold a message of another
    album, a message without album or no message, the method called on 12
    succeeds and returns the five messages 10, 11, 12, 13, 14 in this
    order. *)
Theorem get_media_group_ten_to_fourteen (c : chat) (g : pyval) (fuel : nat) :
  truthy g = true ->
  (forall i, 10 <= i <= 14 -> c !! i = Some g) ->
  (forall i, 1 <= i <= 9 \/ 15 <= i <= 24 -> c !! i <> Some g) ->
  (6 <= fuel)%nat ->
  resolve fuel c 12
  = Returns [mkMessage 10 g; mkMessage 11 g; mkMessage 12 g;
             mkMessage 13 g; mkMessage 14 g].
Proof.
  intros Hg Hin Hout Hfuel.
  change [mkMessage 10 g; mkMessage 11 g; mkMessage 12 g;
          mkMessage 13 g; mkMessage 14 g] with (album g 10 14).
  apply resolve_album; try done; try lia.
  - intros i Hi. apply Hout. lia.
  - intros i Hi. apply Hout. lia.
Qed.

Lemma get_media_group_ten_to_fourteen_witness :
  resolve 6 chat_album 12 = Returns [msg 10; msg 11; msg 12; msg 13; msg 14].
Proof.
  apply (get_media_group_ten_to_fourteen chat_album G 6);
    [reflexivity | | | lia].
  - intros i Hi. by_range (fun i => chat_album !! i = Some G) 10 5.
  - intros i [Hi|Hi].
    + by_range (fun i => chat_album !! i <> Some G) 1 9.
    + by_range (fun i => chat_album !! i <> Some G) 15 10.
Defined.

(** ** Termination of the backward scan, stated *)

(** C8.  Started from a [current_id] of at least 1, as the method starts
    it, the backward scan returns within [current_id] iterations whatever
    the client answers.  Each of its calls asks for
    [range(max(1, current_id - 9), current_id + 1)], so no id below 1 is
    asked for; the [current_id] of a further call is smaller than the one
    before and still at least 1.  In particular the album [1 .. b] at the
    start of a chat is returned whole for any seed in it. *)
Theorem search_backwards_terminates :
  (forall (W : Type) (self : Client W) (fuel : nat) (chat_id : chat_ref)
          (g : pyval) (media_group : list Message) (current_id : Z) (w : W),
      1 <= current_id ->
      (Z.to_nat current_id <= fuel)%nat ->
      exists media_group' w' log,
        search_backwards self fuel chat_id g media_group current_id w
          = (Returns media_group', w', log)
        /\ backward_calls chat_id current_id log
        /\ Forall (asks_within current_id) log)
  /\
  (forall (c : chat) (g : pyval) (seed b : Z) (fuel : nat),
      truthy g = true ->
      1 <= seed -> seed <= b ->
      (forall i, 1 <= i <= b -> c !! i = Some g) ->
      (forall i, b < i <= b + 10 -> c !! i <> Some g) ->
      (Z.to_nat b + 1 <= fuel)%nat ->
      resolve fuel c seed = Returns (album g 1 b)).
Proof.
  split.
  - intros W self fuel chat_id g mg cur w Hcur Hfuel.
    destruct (search_backwards_returns self fuel chat_id g cur mg w Hcur Hfuel)
      as (mg' & w' & log & Hrun & Hlog).
    exists mg', w', log. split; [done|]. split; [done|].
    exact (backward_calls_within chat_id cur log Hlog).
  - intros c g seed b fuel Hg Hs Hsb Hin Habove Hfuel.
    apply resolve_album; try done; lia.
Qed.

Lemma search_backwards_terminates_witness :
  (exists media_group' w' log,
     search_backwards chat_client 2 me G [] 2 chat_start
       = (Returns media_group', w', log)
     /\ backward_calls me 2 log
     /\ Forall (asks_within 2) log)
  /\ resolve 4 chat_start 2 = Returns (album G 1 3).
Proof.
  destruct search_backwards_terminates as [Hany Hstart]. split.
  - apply (Hany chat chat_client 2%nat me G [] 2 chat_start); lia.
  - apply (Hstart chat_start G 2 3 4%nat); [reflexivity | lia | lia | | | lia].
    + intros i Hi. by_range (fun i => chat_start !! i = Some G) 1 3.
    + intros i Hi. by_range (fun i => chat_start !! i <> Some G) 4 10.
Defined.

(** ** Where the answers of a chat lie *)

Section ChatAnswers.
Context (c : chat).

Lemma elem_of_fetch (ids : list Z) (m : Message) :
  m ∈ omap (message_at c) ids ->
  id m ∈ ids /\ c !! id m = Some (media_group_id m).
Proof.
  rewrite list_elem_of_omap. intros (i & Hi & Hm).
  unfold message_at in Hm. destruct (c !! i) as [v|] eqn:E; [|discriminate].
  cbn in Hm. injection Hm as <-. cbn. done.
Qed.

Lemma elem_of_same_group g (l : list Message) (m : Message) :
  m ∈ same_group g l -> m ∈ l /\ media_group_id m = g.
Proof.
  rewrite !list_elem_of_In. unfold same_group. rewrite List.filter_In.
  intros [? ?]. split; [done|by apply py_eq_true].
Qed.

(** The forward scan only adds messages at or above the id it starts
    from. *)
Lemma search_forwards_chat_above g lo :
  forall fuel current_id mg mg' w' log,
    lo <= current_id ->
    Forall (fun m => lo <= id m) mg ->
    search_forwards chat_client fuel me g mg current_id c
      = (Returns mg', w', log) ->
    Forall (fun m => lo <= id m) mg'.
Proof.
  induction fuel as [|fuel IH]; intros cur mg mg' w' log Hcur Hmg Hrun;
    [discriminate|].
  rewrite search_forwards_S in Hrun. cbn [chat_client get_messages] in Hrun.
  set (X := same_group g _) in Hrun.
  assert (HX : Forall (fun m => cur <= id m) X).
  { apply Forall_forall. intros m Hm.
    apply elem_of_same_group in Hm as [Hm _].
    apply elem_of_fetch in Hm as [Hm _].
    unfold py_range in Hm. apply elem_of_seqZ in Hm. lia. }
  destruct (last X) as [final|] eqn:E; [|by inversion Hrun; subst].
  destruct (search_forwards chat_client fuel _ _ _ _ c)
    as [[r w2] log2] eqn:Erec.
  inversion Hrun; subst.
  assert (Hfinal : cur <= id final).
  { apply last_Some_elem_of in E.
    by apply (proj1 (Forall_forall _ _) HX). }
  eapply IH; [| |exact Erec]; [lia|].
  apply Forall_app. split; [done|].
  eapply Forall_impl; [exact HX|]. cbn. intros; lia.
Qed.

Lemma length_fetch_le (ids : list Z) :
  (length (omap (message_at c) ids) <= length ids)%nat.
Proof.
  induction ids as [|i ids IH]; cbn; [lia|].
  destruct (message_at c i); cbn; lia.
Qed.

(** The first match of a run of ids and the number of matches: the
    matches all lie between the first one and the end of the run. *)
Lemma same_group_fetch_head g (n : nat) :
  forall lo first,
    head (same_group g (omap (message_at c) (seqZ lo (Z.of_nat n))))
      = Some first ->
    lo <= id first
    /\ Z.of_nat (length (same_group g
                  (omap (message_at c) (seqZ lo (Z.of_nat n)))))
       <= lo + Z.of_nat n - id first.
Proof.
  induction n as [|n IH]; intros lo first; [rewrite seqZ_nil by lia; done|].
  rewrite seqZ_cons by lia.
  replace (Z.pred (Z.of_nat (S n))) with (Z.of_nat n) by lia.
  cbn [omap list_omap].
  destruct (message_at c lo) as [m|] eqn:E.
  - assert (Hm : id m = lo).
    { unfold message_at in E. destruct (c !! lo); [|discriminate].
      cbn in E. by injection E as <-. }
    cbn [same_group List.filter].
    destruct (py_eq (media_group_id m) g).
    + cbn [head length]. intros [= <-]. split; [lia|].
      pose proof (List.filter_length_le
        (fun msg => py_eq (media_group_id msg) g)
        (omap (message_at c) (seqZ (Z.succ lo) (Z.of_nat n)))) as Hle.
      pose proof (length_fetch_le (seqZ (Z.succ lo) (Z.of_nat n))) as Hle2.
      rewrite length_seqZ in Hle2. lia.
    + intros H. apply IH in H. unfold same_group in *. lia.
  - intros H. apply IH in H. lia.
Qed.
End ChatAnswers.

(** ** A match that is not next to the seed *)

Section Gap.
Context (c : chat) (g : pyval).
Hypothesis H10 : c !! 10 = Some g.
Hypothesis H11 : c !! 11 <> Some g.
Hypothesis H12 : c !! 12 = Some g.

(** The matches of the chunk [3 .. 12]: whatever matches among 3 .. 9,
    then 10 and 12. *)
Lemma same_group_chunk_3_12 :
  same_group g (omap (message_at c) (py_range 3 (12 + 1)))
  = same_group g (omap (message_at c) (seqZ 3 (Z.of_nat 7)))
    ++ [mkMessage 10 g; mkMessage 12 g].
Proof.
  unfold py_range. change (12 + 1 - 3) with (Z.of_nat 7 + 3).
  rewrite seqZ_app by lia. rewrite omap_app, same_group_app. f_equal.
  change (seqZ (3 + Z.of_nat 7) 3) with [10; 11; 12].
  cbn [omap list_omap]. unfold message_at. rewrite H10, H12.
  destruct (c !! 11) as [v|] eqn:E; cbn; rewrite !py_eq_refl.
  - destruct (py_eq v g) eqn:Ev; [|reflexivity].
    apply py_eq_true in Ev. congruence.
  - reflexivity.
Qed.

(** The first chunk of the backward scan from 12 is rejected as a whole. *)
Lemma search_backwards_gap fuel mg :
  search_backwards chat_client (S fuel) me g mg 12 c
  = (Returns mg, c, [GetRange me 3 13]).
Proof.
  rewrite search_backwards_S. cbn [chat_client get_messages].
  change (Z.max 1 (12 - 9)) with 3.
  rewrite same_group_chunk_3_12.
  pose proof (same_group_fetch_head c g 7 3) as Hhead.
  destruct (same_group g (omap (message_at c) (seqZ 3 (Z.of_nat 7))))
    as [|first rest]; [reflexivity|].
  destruct (Hhead first eq_refl) as [Hlo Hlen].
  cbn [app head length]. rewrite length_app.
  replace (id first =? _) with false; [reflexivity|].
  symmetry. apply Z.eqb_neq. cbn [length] in *. lia.
Qed.

(** Whatever the method returns for the seed 12 lies above 12. *)
Lemma resolve_gap_above fuel l :
  resolve fuel c 12 = Returns l -> Forall (fun m => 13 <= id m) l.
Proof.
  unfold resolve, outcome, get_media_group.
  change (12 <=? 0) with false. cbv iota.
  unfold bind at 1. unfold call_get_message. cbn [chat_client get_message].
  unfold message_at. rewrite H12. cbn [fmap option_fmap option_map media_group_id].
  destruct (negb (truthy g)); [discriminate|]. unfold bind.
  destruct fuel as [|fuel]; [discriminate|].
  rewrite search_backwards_gap.
  destruct (search_forwards chat_client (S fuel) me g [] (12 + 1) c)
    as [[[mg| |] w'] log] eqn:E; try discriminate.
  apply (search_forwards_chat_above c g 13) in E; [|done|constructor].
  destruct mg as [|m0 mg]; [discriminate|].
  unfold ret. cbn [fst]. intros [= <-].
  eapply Permutation_Forall; [|exact E].
  symmetry. apply (sorted_perm (m0 :: mg)).
Qed.

(** With nothing of the album in 13 .. 22 either, the method fails. *)
Lemma resolve_gap_fails fuel :
  truthy g = true ->
  (forall i, 13 <= i <= 22 -> c !! i <> Some g) ->
  resolve (S fuel) c 12 = Raises AssemblyFailure.
Proof.
  intros Hg Habove. unfold resolve, outcome, get_media_group.
  change (12 <=? 0) with false. cbv iota.
  unfold bind at 1. unfold call_get_message. cbn [chat_client get_message].
  unfold message_at. rewrite H12. cbn [fmap option_fmap option_map media_group_id].
  rewrite Hg. cbn [negb]. unfold bind.
  rewrite search_backwards_gap, search_forwards_S.
  cbn [chat_client get_messages].
  rewrite same_group_fetch_none; [reflexivity|].
  intros i Hi. apply elem_of_seqZ in Hi. apply Habove. lia.
Qed.
End Gap.

(** In every chat in which the messages 10 and 12 carry [g] and message 11
    does not, the backward scan from the seed 12 stops at its first chunk,
    the ids 3 to 12, and takes none of that chunk's matches: neither 10 nor
    the seed.  So a list returned by the method holds only messages above
    12, and when the ids 13 to 22 hold no message of [g] the method
    raises. *)
Lemma get_media_group_gap (c : chat) (g : pyval) (fuel : nat) :
  c !! 10 = Some g ->
  c !! 11 <> Some g ->
  c !! 12 = Some g ->
  search_backwards chat_client (S fuel) me g [] 12 c
    = (Returns [], c, [GetRange me 3 13])
  /\ (forall l, resolve fuel c 12 = Returns l ->
        Forall (fun m => 12 < id m) l)
  /\ (truthy g = true ->
      (forall i, 13 <= i <= 22 -> c !! i <> Some g) ->
      resolve (S fuel) c 12 = Raises AssemblyFailure).
Proof.
  intros H10 H11 H12. split; [by apply search_backwards_gap|]. split.
  - intros l Hl.
    eapply Forall_impl; [exact (resolve_gap_above c g H10 H11 H12 fuel l Hl)|].
    cbn. intros; lia.
  - intros Hg Habove. exact (resolve_gap_fails c g H10 H11 H12 fuel Hg Habove).
Qed.

(** C2.  On the chat in which 10 and 12 carry [G] and 11 carries no album,
    the method called on 12 does stop its backward scan without taking 10,
    after the one chunk of ids 3 to 12, but it takes nothing at all from
    that chunk: the scan ends with an empty list, the forward chunk of ids
    13 to 22 is empty, and the method raises the "failed to retrieve"
    error.  It returns neither the list of 12 alone nor the list of 11
    and 12. *)
Theorem get_media_group_gap_raises :
  chat_gap !! 10 = Some G
  /\ chat_gap !! 11 = Some PyNone
  /\ chat_gap !! 12 = Some G
  /\ truthy G = true
  /\ search_backwards chat_client 20 me G [] 12 chat_gap
       = (Returns [], chat_gap, [GetRange me 3 13])
  /\ get_media_group chat_client 20 me 12 chat_gap
       = (Raises AssemblyFailure, chat_gap,
          [GetOne me 12; GetRange me 3 13; GetRange me 13 23])
  /\ resolve 20 chat_gap 12 <> Returns [msg 12]
  /\ resolve 20 chat_gap 12 <> Returns [mkMessage 11 PyNone; msg 12].
Proof. repeat split; by vm_compute. Qed.

(** C9.  The method can succeed with a list that does not contain the seed.
    In [chat_gap_then_more] the seed 12 is found and carries [G]; its
    backward chunk holds the matches 10 and 12 but not 11, so the backward
    scan ends with nothing, the seed included; the forward scan finds 13;
    the method returns the list of 13 alone. *)
Theorem get_media_group_may_omit_seed :
  exists (c : chat) (fuel : nat) (target : Message) (l : list Message),
    get_message chat_client me 12 c = (Some target, c)
    /\ truthy (media_group_id target) = true
    /\ c !! 10 = Some (media_group_id target)
    /\ c !! 11 <> Some (media_group_id target)
    /\ c !! 13 = Some (media_group_id target)
    /\ search_backwards chat_client fuel me (media_group_id target) [] 12 c
         = (Returns [], c, [GetRange me 3 13])
    /\ resolve fuel c 12 = Returns l
    /\ l = [msg 13]
    /\ target ∉ l.
Proof.
  exists chat_gap_then_more, 20%nat, (msg 12), [msg 13].
  repeat split; try by vm_compute.
  intros Hin. apply list_elem_of_In in Hin. cbn in Hin. unfold msg in Hin.
  intuition discriminate.
Qed.

(** * Further properties of the method *)

(** ** Which error is raised when *)

Section Errors.
Context {W : Type} (self : Client W).

(** X1.  Whatever the client answers, each error has one cause.  The
    "negative or equal to zero" error is raised only for a [message_id] of
    at most 0; the "not found" error only for a positive [message_id] whose
    lookup gave [None], and it names that id; the "doesn't belong" error
    only when the lookup gave a message with a falsy [media_group_id]; the
    "failed to retrieve" error only when the lookup gave a message with a
    truthy one. *)
Theorem get_media_group_raises_only fuel chat_id message_id w e :
  outcome (get_media_group self fuel chat_id message_id w) = Raises e ->
  match e with
  | InvalidArgument => message_id <= 0
  | NotFound n =>
      n = message_id /\ 0 < message_id
      /\ (get_message self chat_id message_id w).1 = None
  | NotAGroupMember =>
      0 < message_id
      /\ exists m, (get_message self chat_id message_id w).1 = Some m
           /\ truthy (media_group_id m) = false
  | AssemblyFailure =>
      0 < message_id
      /\ exists m, (get_message self chat_id message_id w).1 = Some m
           /\ truthy (media_group_id m) = true
  end.
Proof.
  unfold get_media_group, outcome.
  destruct (message_id <=? 0) eqn:E0.
  { apply Z.leb_le in E0. by intros [= <-]. }
  apply Z.leb_gt in E0. unfold bind at 1. unfold call_get_message.
  destruct (get_message self chat_id message_id w) as [[target|] w1];
    [|by intros [= <-]].
  cbn [fst snd]. destruct (truthy (media_group_id target)) eqn:Et; cbn [negb].
  2:{ intros [= <-]. eauto. }
  unfold bind.
  destruct (search_backwards self fuel chat_id _ [] message_id w1)
    as [[[mg1|e1|] w2] log1] eqn:Eb;
    [|by apply search_backwards_no_raise in Eb|discriminate].
  destruct (search_forwards self fuel chat_id _ mg1 (message_id + 1) w2)
    as [[[mg2|e2|] w3] log2] eqn:Ef;
    [|by apply search_forwards_no_raise in Ef|discriminate].
  destruct mg2; [|discriminate]. intros [= <-]. eauto.
Qed.
End Errors.

Lemma get_media_group_raises_only_witness :
  outcome (get_media_group chat_client 20 me 12 chat_gap)
    = Raises AssemblyFailure
  /\ 0 < 12
  /\ exists m, (get_message chat_client me 12 chat_gap).1 = Some m
       /\ truthy (media_group_id m) = true.
Proof.
  split; [by vm_compute|].
  apply (get_media_group_raises_only chat_client 20 me 12 chat_gap
           AssemblyFailure). by vm_compute.
Defined.

(** ** When the method fails to assemble *)

Section Assembly.
Context {W : Type} (self : Client W).

(** A rejected chunk ends the backward scan at once and leaves the
    accumulator as it was. *)
Lemma search_backwards_rejected fuel chat_id g mg current_id w chunk w1 :
  get_messages self chat_id (Z.max 1 (current_id - 9)) (current_id + 1) w
    = (chunk, w1) ->
  accepts current_id (same_group g chunk) = false ->
  search_backwards self (S fuel) chat_id g mg current_id w
    = (Returns mg, w1,
       [GetRange chat_id (Z.max 1 (current_id - 9)) (current_id + 1)]).
Proof.
  intros Hchunk Hrej. rewrite search_backwards_S, Hchunk. cbv zeta.
  unfold accepts in Hrej.
  destruct (head (same_group g chunk)) as [first|]; [|reflexivity].
  by rewrite Hrej.
Qed.

(** An accepted first chunk leaves something in the accumulator. *)
Lemma search_backwards_accepted fuel chat_id g current_id w chunk w1
    mg' w' log :
  get_messages self chat_id (Z.max 1 (current_id - 9)) (current_id + 1) w
    = (chunk, w1) ->
  accepts current_id (same_group g chunk) = true ->
  search_backwards self fuel chat_id g [] current_id w
    = (Returns mg', w', log) ->
  mg' <> [].
Proof.
  intros Hchunk Hacc Hrun. destruct fuel as [|fuel]; [discriminate|].
  rewrite search_backwards_S, Hchunk in Hrun. cbv zeta in Hrun.
  unfold accepts in Hacc.
  destruct (same_group g chunk) as [|first rest] eqn:E; [discriminate|].
  cbn [head] in Hacc, Hrun. rewrite Hacc in Hrun. cbn [negb] in Hrun.
  destruct (id first - 1 <=? 0); [by inversion Hrun|].
  destruct (search_backwards self fuel _ _ _ _ w1) as [[r w2] log2] eqn:Erec.
  inversion Hrun; subst.
  eapply (search_backwards_inv self (fun mg => mg <> []) g); [| |exact Erec].
  - intros chunk' mg Hmg Happ. by apply app_eq_nil in Happ as [_ ?].
  - done.
Qed.

(** X2.  Whatever the client answers: once a seed with a truthy
    [media_group_id] has been found, the method fails with the "failed to
    retrieve" error exactly when the first backward chunk is rejected by the
    test of line 86 and the first forward chunk, ids [message_id + 1] to
    [message_id + 10], has no message of the group. *)
Theorem get_media_group_assembly_failure_iff fuel chat_id message_id
    w target w1 chunk_b w2 chunk_f w3 :
  0 < message_id ->
  get_message self chat_id message_id w = (Some target, w1) ->
  truthy (media_group_id target) = true ->
  get_messages self chat_id (Z.max 1 (message_id - 9)) (message_id + 1) w1
    = (chunk_b, w2) ->
  get_messages self chat_id (message_id + 1) (message_id + 1 + 9 + 1) w2
    = (chunk_f, w3) ->
  outcome (get_media_group self (S fuel) chat_id message_id w)
    = Raises AssemblyFailure
  <->
  accepts message_id (same_group (media_group_id target) chunk_b) = false
  /\ same_group (media_group_id target) chunk_f = [].
Proof.
  intros Hpos Hseed Hg Hb Hf. unfold get_media_group, outcome.
  rewrite (proj2 (Z.leb_gt _ _) Hpos).
  unfold bind at 1. unfold call_get_message. rewrite Hseed, Hg.
  cbn [negb]. set (g := media_group_id target). unfold bind.
  destruct (accepts message_id (same_group g chunk_b)) eqn:Eacc.
  - (* accepted: the accumulator is not empty at the end *)
    split; [|by intros [? _]].
    destruct (search_backwards self (S fuel) chat_id g [] message_id w1)
      as [[[mg1|e1|] w2'] log1] eqn:Eb;
      [|by apply search_backwards_no_raise in Eb|discriminate].
    apply (search_backwards_accepted _ _ _ _ _ _ _ _ _ _ Hb Eacc) in Eb.
    destruct (search_forwards self (S fuel) chat_id g mg1 (message_id + 1) w2')
      as [[[mg2|e2|] w3'] log2] eqn:Ef;
      [|by apply search_forwards_no_raise in Ef|discriminate].
    apply search_forwards_nonempty in Ef; [|done].
    destruct mg2; [done|discriminate].
  - (* rejected: everything depends on the first forward chunk *)
    rewrite (search_backwards_rejected fuel chat_id g [] message_id w1
               chunk_b w2 Hb Eacc).
    rewrite search_forwards_S, Hf. cbv zeta.
    destruct (last (same_group g chunk_f)) as [final|] eqn:El.
    + split.
      * destruct (search_forwards self fuel chat_id g _ (id final + 1) w3)
          as [[[mg2|e2|] w3'] log2] eqn:Ef;
          [|by apply search_forwards_no_raise in Ef|discriminate].
        apply search_forwards_nonempty in Ef.
        { destruct mg2; [done|discriminate]. }
        cbn [app]. intros E. rewrite E in El. discriminate.
      * intros [_ E]. rewrite E in El. discriminate.
    + apply last_None in El. by rewrite El.
Qed.
End Assembly.

Lemma get_media_group_assembly_failure_iff_witness :
  outcome (get_media_group chat_client 1 me 12 chat_gap)
    = Raises AssemblyFailure
  <->
  accepts 12 (same_group G [msg 10; mkMessage 11 PyNone; msg 12]) = false
  /\ same_group G [] = [].
Proof.
  apply (get_media_group_assembly_failure_iff chat_client 0 me 12
           chat_gap (msg 12) chat_gap
           [msg 10; mkMessage 11 PyNone; msg 12] chat_gap [] chat_gap);
    [lia | reflexivity | reflexivity | by vm_compute | by vm_compute].
Defined.

(** ** The calls the method makes *)

Section Calls.
Context {W : Type} (self : Client W).

Lemma search_backwards_chunk_calls fuel chat_id g :
  forall mg current_id w,
    1 <= current_id ->
    Forall (chunk_call 10 chat_id)
      (calls (search_backwards self fuel chat_id g mg current_id w)).
Proof.
  induction fuel as [|fuel IH]; intros mg cur w Hcur; [constructor|].
  rewrite search_backwards_S.
  destruct (get_messages self chat_id _ _ w) as [chunk w1]. cbv zeta.
  assert (Hhere : chunk_call 10 chat_id
            (GetRange chat_id (Z.max 1 (cur - 9)) (cur + 1))).
  { cbn. split; [reflexivity|lia]. }
  destruct (head (same_group g chunk)) as [first|];
    [|by unfold calls; cbn [snd]; constructor].
  destruct (negb _); [by unfold calls; cbn [snd]; constructor|].
  destruct (id first - 1 <=? 0) eqn:E; [by unfold calls; cbn [snd]; constructor|].
  apply Z.leb_gt in E.
  specialize (IH (same_group g chunk ++ mg) (id first - 1) w1 ltac:(lia)).
  destruct (search_backwards self fuel _ _ _ _ w1) as [[r w2] log2].
  unfold calls in *. cbn [snd] in *. by constructor.
Qed.

Lemma search_forwards_chunk_calls fuel chat_id g :
  forall mg current_id w,
    Forall (chunk_call 10 chat_id)
      (calls (search_forwards self fuel chat_id g mg current_id w)).
Proof.
  induction fuel as [|fuel IH]; intros mg cur w; [constructor|].
  rewrite search_forwards_S.
  destruct (get_messages self chat_id _ _ w) as [chunk w1]. cbv zeta.
  assert (Hhere : chunk_call 10 chat_id (GetRange chat_id cur (cur + 9 + 1))).
  { cbn. split; [reflexivity|lia]. }
  destruct (last (same_group g chunk)) as [final|];
    [|by unfold calls; cbn [snd]; constructor].
  specialize (IH (mg ++ same_group g chunk) (id final + 1) w1).
  destruct (search_forwards self fuel _ _ _ _ w1) as [[r w2] log2].
  unfold calls in *. cbn [snd] in *. by constructor.
Qed.

(** X3.  Whatever the client answers and however the run ends, a positive
    [message_id] is looked up exactly once, as the first call, and every
    other call is a call of [get_message_chunk] on the same chat for at
    least one and at most ten ids. *)
Theorem get_media_group_calls fuel chat_id message_id w :
  0 < message_id ->
  exists rest,
    calls (get_media_group self fuel chat_id message_id w)
      = GetOne chat_id message_id :: rest
    /\ Forall (chunk_call 10 chat_id) rest.
Proof.
  intros Hpos. unfold get_media_group.
  rewrite (proj2 (Z.leb_gt _ _) Hpos).
  unfold bind at 1. unfold call_get_message.
  destruct (get_message self chat_id message_id w) as [[target|] w1];
    [|by exists []].
  destruct (negb _); [by exists []|].
  set (g := media_group_id target). unfold bind.
  pose proof (search_backwards_chunk_calls fuel chat_id g [] message_id w1
                ltac:(lia)) as Hb.
  destruct (search_backwards self fuel chat_id g [] message_id w1)
    as [[[mg1|e1|] w2] log1]; unfold calls in Hb |- *; cbn [snd] in Hb |- *;
    [|by eauto|by eauto].
  pose proof (search_forwards_chunk_calls fuel chat_id g mg1 (message_id + 1)
                w2) as Hf.
  destruct (search_forwards self fuel chat_id g mg1 (message_id + 1) w2)
    as [[[mg2|e2|] w3] log2]; unfold calls in Hf; cbn [snd] in Hf |- *.
  - destruct mg2; unfold raise, ret; cbn [snd];
      rewrite ?app_nil_r; eexists; (split; [reflexivity|]);
      by apply Forall_app.
  - eexists. split; [reflexivity|]. by apply Forall_app.
  - eexists. split; [reflexivity|]. by apply Forall_app.
Qed.
End Calls.

Lemma get_media_group_calls_witness :
  exists rest,
    calls (get_media_group chat_client 20 me 12 chat_album)
      = GetOne me 12 :: rest
    /\ Forall (chunk_call 10 me) rest.
Proof.
  apply (get_media_group_calls chat_client 20 me 12 chat_album). lia.
Defined.

(** ** Fuel *)

Section Fuel.
Context {W : Type} (self : Client W).

(** A loop that has finished finishes in the same way with more fuel. *)
Lemma search_backwards_more_fuel chat_id g :
  forall fuel fuel' mg current_id w r w' log,
    search_backwards self fuel chat_id g mg current_id w = (r, w', log) ->
    r <> OutOfFuel ->
    (fuel <= fuel')%nat ->
    search_backwards self fuel' chat_id g mg current_id w = (r, w', log).
Proof.
  induction fuel as [|fuel IH]; intros fuel' mg cur w r w' log Hrun Hr Hle.
  { inversion Hrun; subst. done. }
  destruct fuel' as [|fuel']; [lia|].
  rewrite search_backwards_S in Hrun |- *.
  destruct (get_messages self chat_id _ _ w) as [chunk w1]. cbv zeta in *.
  destruct (head (same_group g chunk)) as [first|]; [|done].
  destruct (negb _); [done|].
  destruct (id first - 1 <=? 0); [done|].
  destruct (search_backwards self fuel _ _ _ _ w1) as [[r1 w2] log1] eqn:E.
  inversion Hrun; subst.
  by rewrite (IH fuel' _ _ _ _ _ _ E Hr ltac:(lia)).
Qed.

Lemma search_forwards_more_fuel chat_id g :
  forall fuel fuel' mg current_id w r w' log,
    search_forwards self fuel chat_id g mg current_id w = (r, w', log) ->
    r <> OutOfFuel ->
    (fuel <= fuel')%nat ->
    search_forwards self fuel' chat_id g mg current_id w = (r, w', log).
Proof.
  induction fuel as [|fuel IH]; intros fuel' mg cur w r w' log Hrun Hr Hle.
  { inversion Hrun; subst. done. }
  destruct fuel' as [|fuel']; [lia|].
  rewrite search_forwards_S in Hrun |- *.
  destruct (get_messages self chat_id _ _ w) as [chunk w1]. cbv zeta in *.
  destruct (last (same_group g chunk)) as [final|]; [|done].
  destruct (search_forwards self fuel _ _ _ _ w1) as [[r1 w2] log1] eqn:E.
  inversion Hrun; subst.
  by rewrite (IH fuel' _ _ _ _ _ _ E Hr ltac:(lia)).
Qed.

(** A run of the method that has not run out of fuel is the run with any
    larger amount of fuel: same outcome, same final state, same calls. *)
Lemma get_media_group_more_fuel fuel fuel' chat_id message_id w r w' log :
  get_media_group self fuel chat_id message_id w = (r, w', log) ->
  r <> OutOfFuel ->
  (fuel <= fuel')%nat ->
  get_media_group self fuel' chat_id message_id w = (r, w', log).
Proof.
  intros Hrun Hr Hle. unfold get_media_group in *.
  destruct (message_id <=? 0); [done|].
  unfold bind, call_get_message in *.
  destruct (get_message self chat_id message_id w) as [[target|] w1]; [|done].
  destruct (negb _); [done|].
  set (g := media_group_id target) in *.
  destruct (search_backwards self fuel chat_id g [] message_id w1)
    as [[[mg1|e1|] w2] log1] eqn:Eb.
  - rewrite (search_backwards_more_fuel _ _ _ fuel' _ _ _ _ _ _ Eb) by done.
    destruct (search_forwards self fuel chat_id g mg1 (message_id + 1) w2)
      as [[[mg2|e2|] w3] log2] eqn:Ef.
    + by rewrite (search_forwards_more_fuel _ _ _ fuel' _ _ _ _ _ _ Ef).
    + by apply search_forwards_no_raise in Ef.
    + by inversion Hrun; subst.
  - by apply search_backwards_no_raise in Eb.
  - by inversion Hrun; subst.
Qed.
End Fuel.

(** ** Termination against a chat *)

Section ChatTermination.
Context (c : chat) (g : pyval).

(** The ids of a chat are bounded. *)
Lemma chat_bound : exists B, forall i v, c !! i = Some v -> i < B.
Proof.
  induction c as [|i x m Hi _ IH] using map_first_key_ind.
  - exists 0. intros i v. by rewrite lookup_empty.
  - destruct IH as [B HB]. exists (Z.max B (i + 1)). intros j v.
    destruct (decide (i = j)) as [->|Hne].
    + intros _. lia.
    + rewrite lookup_insert_ne by done. intros Hj. apply HB in Hj. lia.
Qed.

(** The chat is never changed. *)
Lemma search_backwards_chat_unchanged fuel :
  forall mg current_id r w' log,
    search_backwards chat_client fuel me g mg current_id c = (r, w', log) ->
    w' = c.
Proof.
  induction fuel as [|fuel IH]; intros mg cur r w' log Hrun;
    [by inversion Hrun|].
  rewrite search_backwards_S in Hrun. cbn [chat_client get_messages] in Hrun.
  destruct (head (same_group g _)) as [first|]; [|by inversion Hrun].
  destruct (negb _); [by inversion Hrun|].
  destruct (id first - 1 <=? 0); [by inversion Hrun|].
  destruct (search_backwards chat_client fuel _ _ _ _ c)
    as [[r1 w2] log1] eqn:E.
  inversion Hrun; subst. by eapply IH.
Qed.

Lemma search_forwards_chat_unchanged fuel :
  forall mg current_id r w' log,
    search_forwards chat_client fuel me g mg current_id c = (r, w', log) ->
    w' = c.
Proof.
  induction fuel as [|fuel IH]; intros mg cur r w' log Hrun;
    [by inversion Hrun|].
  rewrite search_forwards_S in Hrun. cbn [chat_client get_messages] in Hrun.
  destruct (last (same_group g _)) as [final|]; [|by inversion Hrun].
  destruct (search_forwards chat_client fuel _ _ _ _ c)
    as [[r1 w2] log1] eqn:E.
  inversion Hrun; subst. by eapply IH.
Qed.

(** The forward scan returns once it is past the last id of the chat. *)
Lemma search_forwards_chat_returns B :
  (forall i v, c !! i = Some v -> i < B) ->
  forall fuel current_id mg,
    (Z.to_nat (B - current_id) + 1 <= fuel)%nat ->
    exists mg' log,
      search_forwards chat_client fuel me g mg current_id c
        = (Returns mg', c, log).
Proof.
  intros HB fuel. induction fuel as [|fuel IH]; intros cur mg Hfuel; [lia|].
  rewrite search_forwards_S. cbn [chat_client get_messages].
  destruct (last (same_group g _)) as [final|] eqn:E; [|eauto].
  apply last_Some_elem_of, elem_of_same_group in E as [E _].
  apply elem_of_fetch in E as [Hin Hfinal].
  unfold py_range in Hin. apply elem_of_seqZ in Hin. apply HB in Hfinal.
  destruct (IH (id final + 1) (mg ++ same_group g
             (omap (message_at c) (py_range cur (cur + 9 + 1)))))
    as (mg' & log & ->); [lia|eauto].
Qed.
End ChatTermination.

(** X4.  Against a chat, which holds finitely many messages, the method
    always comes to an end: for every chat and every [message_id] there is
    an amount of fuel from which on the run ends in the same way, with a
    list or with an error. *)
Theorem get_media_group_chat_terminates (c : chat) (message_id : Z) :
  exists (fuel0 : nat) (r : result (list Message)),
    r <> OutOfFuel
    /\ forall fuel, (fuel0 <= fuel)%nat -> resolve fuel c message_id = r.
Proof.
  destruct (chat_bound c) as [B HB].
  set (fuel0 := Nat.max (Z.to_nat message_id)
                  (Z.to_nat (B - (message_id + 1)) + 1)).
  assert (Hend : outcome (get_media_group chat_client fuel0 me message_id c)
                 <> OutOfFuel).
  { unfold get_media_group, outcome.
    destruct (message_id <=? 0) eqn:E0; [done|]. apply Z.leb_gt in E0.
    unfold bind at 1. unfold call_get_message.
    cbn [chat_client get_message].
    destruct (message_at c message_id) as [target|]; [|done].
    destruct (negb _); [done|]. set (g := media_group_id target).
    unfold bind.
    destruct (search_backwards_returns chat_client fuel0 me g message_id []
                c ltac:(lia) ltac:(lia)) as (mg1 & w2 & log1 & Hb & _).
    rewrite Hb. apply search_backwards_chat_unchanged in Hb as ->.
    destruct (search_forwards_chat_returns c g B HB fuel0 (message_id + 1)
                mg1 ltac:(lia)) as (mg2 & log2 & ->).
    by destruct mg2. }
  exists fuel0, (resolve fuel0 c message_id). split; [exact Hend|].
  intros fuel Hfuel. unfold resolve.
  destruct (get_media_group chat_client fuel0 me message_id c)
    as [[r w'] log] eqn:E.
  by rewrite (get_media_group_more_fuel chat_client fuel0 fuel me message_id
                c r w' log E Hend Hfuel).
Qed.

(** ** What the scans take from a chat *)

Section ChatShape.
Context (c : chat) (g : pyval).

(** The messages of the group [g] that the chat holds under the ids
    [lo .. hi - 1], in ascending order. *)
Lemma elem_of_same_group_fetch (ids : list Z) (m : Message) :
  m ∈ same_group g (omap (message_at c) ids)
  <-> id m ∈ ids /\ in_chat c m /\ media_group_id m = g.
Proof.
  split.
  - intros Hm. apply elem_of_same_group in Hm as [Hm Hg].
    pose proof (elem_of_fetch c ids m Hm) as [Hid Hc].
    split; [done|]. split; [|done].
    unfold in_chat, message_at. rewrite Hc. by destruct m.
  - intros (Hid & Hc & Hg).
    apply list_elem_of_In. unfold same_group. apply List.filter_In. split.
    + apply list_elem_of_In, list_elem_of_omap. by exists (id m).
    + rewrite Hg. apply py_eq_refl.
Qed.

Lemma same_group_fetch_nil_inv (ids : list Z) :
  same_group g (omap (message_at c) ids) = [] ->
  forall i, i ∈ ids -> c !! i <> Some g.
Proof.
  intros Hnil i Hi Hg.
  assert (Hm : mkMessage i g ∈ same_group g (omap (message_at c) ids)).
  { apply elem_of_same_group_fetch. cbn. split; [done|]. split; [|done].
    unfold in_chat, message_at. cbn. by rewrite Hg. }
  rewrite Hnil in Hm. by apply not_elem_of_nil in Hm.
Qed.

Lemma same_group_fetch_range_app (lo mid hi : Z) :
  lo <= mid -> mid <= hi ->
  same_group g (omap (message_at c) (py_range lo hi))
  = same_group g (omap (message_at c) (py_range lo mid))
    ++ same_group g (omap (message_at c) (py_range mid hi)).
Proof.
  intros H1 H2. unfold py_range.
  replace (hi - lo) with ((mid - lo) + (hi - mid)) by lia.
  rewrite seqZ_app, omap_app, same_group_app by lia.
  by replace (lo + (mid - lo)) with mid by lia.
Qed.

Lemma same_group_fetch_range_empty (lo hi : Z) :
  hi <= lo -> same_group g (omap (message_at c) (py_range lo hi)) = [].
Proof. intros H. unfold py_range. by rewrite seqZ_nil by lia. Qed.

Lemma same_group_fetch_ascending (n : nat) :
  forall lo,
    StronglySorted id_lt
      (same_group g (omap (message_at c) (seqZ lo (Z.of_nat n)))).
Proof.
  induction n as [|n IH]; intros lo; [rewrite seqZ_nil by lia; constructor|].
  rewrite seqZ_cons by lia.
  replace (Z.pred (Z.of_nat (S n))) with (Z.of_nat n) by lia.
  cbn [omap list_omap].
  destruct (message_at c lo) as [m|] eqn:E; [|apply IH].
  cbn [same_group List.filter].
  destruct (py_eq (media_group_id m) g); [|apply IH].
  constructor; [apply IH|].
  apply List.Forall_forall. intros x Hx. apply list_elem_of_In in Hx.
  apply elem_of_same_group_fetch in Hx as (Hx & _ & _).
  apply elem_of_seqZ in Hx.
  unfold message_at in E. destruct (c !! lo); [|discriminate].
  cbn in E. injection E as <-. unfold id_lt. cbn. lia.
Qed.

Lemma same_group_fetch_range_ascending (lo hi : Z) :
  StronglySorted id_lt (same_group g (omap (message_at c) (py_range lo hi))).
Proof.
  unfold py_range. destruct (Z.le_gt_cases (hi - lo) 0) as [Hn|Hn].
  - rewrite seqZ_nil by lia. constructor.
  - rewrite <- (Z2Nat.id (hi - lo)) by lia. apply same_group_fetch_ascending.
Qed.

(** X5.  Against a chat, the forward scan from [current_id] goes up to the
    first id [stop] from which on ten ids in a row hold no message of the
    group, and adds exactly the messages of the group with ids from
    [current_id] to [stop - 1], whether or not they are next to each
    other: below [stop] every window of ten ids holds one. *)
Theorem search_forwards_chat_takes fuel :
  forall current_id mg mg' w' log,
    search_forwards chat_client fuel me g mg current_id c
      = (Returns mg', w', log) ->
    exists stop,
      current_id <= stop
      /\ mg' = mg ++ same_group g
                       (omap (message_at c) (py_range current_id stop))
      /\ (forall i, stop <= i <= stop + 9 -> c !! i <> Some g)
      /\ (forall i, current_id <= i < stop ->
            exists j, i <= j <= i + 9 /\ c !! j = Some g).
Proof.
  induction fuel as [|fuel IH]; intros cur mg mg' w' log Hrun;
    [discriminate|].
  rewrite search_forwards_S in Hrun. cbn [chat_client get_messages] in Hrun.
  destruct (last (same_group g (omap (message_at c)
              (py_range cur (cur + 9 + 1))))) as [final|] eqn:El.
  - destruct (search_forwards chat_client fuel _ _ _ _ c)
      as [[r w2] log2] eqn:Erec.
    inversion Hrun; subst. clear Hrun.
    apply IH in Erec as (stop & Hstop & -> & Hclean & Hdense).
    pose proof (last_Some_elem_of _ _ El) as Hfinal.
    apply elem_of_same_group_fetch in Hfinal as (Hin & Hc & Hg).
    unfold py_range in Hin. apply elem_of_seqZ in Hin.
    assert (Hfg : c !! id final = Some g).
    { unfold in_chat, message_at in Hc.
      destruct (c !! id final) as [v|]; [|discriminate].
      cbn in Hc. injection Hc as Hc. destruct final; cbn in *. congruence. }
    (* nothing of the group lies between the last match and the end of
       the chunk *)
    rewrite (same_group_fetch_range_app cur (id final + 1) (cur + 9 + 1))
      in El |- * by lia.
    assert (Hrest : same_group g (omap (message_at c)
                      (py_range (id final + 1) (cur + 9 + 1))) = []).
    { rewrite last_app in El.
      destruct (last (same_group g (omap (message_at c)
                  (py_range (id final + 1) (cur + 9 + 1))))) as [y|] eqn:Ey;
        [|by apply last_None in Ey].
      injection El as ->.
      apply last_Some_elem_of, elem_of_same_group_fetch in Ey as (Hy & _).
      unfold py_range in Hy. apply elem_of_seqZ in Hy. lia. }
    rewrite Hrest, app_nil_r.
    exists stop. split; [lia|]. split.
    + rewrite <- app_assoc. f_equal.
      symmetry. apply same_group_fetch_range_app; lia.
    + split; [done|]. intros i Hi.
      destruct (Z.lt_ge_cases i (id final + 1)) as [Hlow|Hhigh].
      * exists (id final). split; [lia|done].
      * apply Hdense. lia.
  - injection Hrun as <- _ _. apply last_None in El.
    exists cur. split; [lia|]. split.
    + by rewrite same_group_fetch_range_empty, app_nil_r by lia.
    + split; [|intros i Hi; lia].
      intros i Hi. apply (same_group_fetch_nil_inv _ El).
      unfold py_range. apply elem_of_seqZ. lia.
Qed.
End ChatShape.

Lemma search_forwards_chat_takes_witness :
  exists stop,
    13 <= stop
    /\ [msg 10; msg 11; msg 12; msg 14]
       = [msg 10; msg 11; msg 12]
         ++ same_group G (omap (message_at chat_gap_above) (py_range 13 stop))
    /\ (forall i, stop <= i <= stop + 9 -> chat_gap_above !! i <> Some G)
    /\ (forall i, 13 <= i < stop ->
          exists j, i <= j <= i + 9 /\ chat_gap_above !! j = Some G).
Proof.
  apply (search_forwards_chat_takes chat_gap_above G 20 13
           [msg 10; msg 11; msg 12] [msg 10; msg 11; msg 12; msg 14]
           chat_gap_above [GetRange me 13 23; GetRange me 15 25]).
  by vm_compute.
Defined.

Section ChatBlock.
Context (c : chat) (g : pyval).

Lemma length_same_group_fetch_le (ids : list Z) :
  (length (same_group g (omap (message_at c) ids)) <= length ids)%nat.
Proof.
  pose proof (List.filter_length_le
    (fun m => py_eq (media_group_id m) g) (omap (message_at c) ids)).
  pose proof (length_fetch_le c ids). unfold same_group. lia.
Qed.

(** As many matches as ids: every id holds a message of the group. *)
Lemma same_group_fetch_full (ids : list Z) :
  length (same_group g (omap (message_at c) ids)) = length ids ->
  forall i, i ∈ ids -> c !! i = Some g.
Proof.
  induction ids as [|i0 ids IH]; intros Hlen i Hi;
    [by apply not_elem_of_nil in Hi|].
  pose proof (length_same_group_fetch_le ids) as Hle.
  cbn [omap list_omap] in Hlen.
  destruct (message_at c i0) as [m|] eqn:E; cbn [length] in Hlen;
    [|lia].
  cbn [same_group List.filter] in Hlen.
  destruct (py_eq (media_group_id m) g) eqn:Eg;
    [|unfold same_group in Hle; lia].
  cbn [length] in Hlen.
  apply elem_of_cons in Hi as [->|Hi].
  - apply py_eq_true in Eg. unfold message_at in E.
    destruct (c !! i0) as [v|]; [|discriminate].
    cbn in E. injection E as <-. cbn in Eg. by subst.
  - apply IH; [|done]. unfold same_group in *. lia.
Qed.

(** A chunk whose matches pass the test of line 86: the matches are the
    messages of all the ids from the first match to the end of the chunk. *)
Lemma accepted_chunk_ids (n : nat) :
  forall lo first,
    head (same_group g (omap (message_at c) (seqZ lo (Z.of_nat n))))
      = Some first ->
    Z.of_nat (length (same_group g
                (omap (message_at c) (seqZ lo (Z.of_nat n)))))
      = lo + Z.of_nat n - id first ->
    lo <= id first
    /\ forall i, id first <= i < lo + Z.of_nat n -> c !! i = Some g.
Proof.
  induction n as [|n IH]; intros lo first; [rewrite seqZ_nil by lia; done|].
  rewrite seqZ_cons by lia.
  replace (Z.pred (Z.of_nat (S n))) with (Z.of_nat n) by lia.
  pose proof (length_same_group_fetch_le (seqZ (Z.succ lo) (Z.of_nat n)))
    as Hle. rewrite length_seqZ in Hle.
  cbn [omap list_omap].
  destruct (message_at c lo) as [m|] eqn:E.
  - assert (Hm : m = mkMessage lo (media_group_id m) /\ c !! lo
                   = Some (media_group_id m)).
    { unfold message_at in E. destruct (c !! lo); [|discriminate].
      cbn in E. by injection E as <-. }
    destruct Hm as [Hm Hlo].
    cbn [same_group List.filter].
    destruct (py_eq (media_group_id m) g) eqn:Eg.
    + cbn [head length]. intros [= <-] Hlen.
      rewrite Hm in Hlen |- *. cbn [id] in Hlen |- *.
      split; [lia|]. intros i Hi.
      destruct (decide (i = lo)) as [->|Hne].
      * apply py_eq_true in Eg. by rewrite Hlo, Eg.
      * apply (same_group_fetch_full (seqZ (Z.succ lo) (Z.of_nat n))).
        -- rewrite length_seqZ. unfold same_group in *. lia.
        -- apply elem_of_seqZ. lia.
    + intros Hhead Hlen. unfold same_group in *.
      destruct (IH (Z.succ lo) first Hhead) as [Hlo' Hall]; [lia|].
      split; [lia|]. intros i Hi. apply Hall. lia.
  - intros Hhead Hlen.
    destruct (IH (Z.succ lo) first Hhead) as [Hlo' Hall]; [lia|].
    split; [lia|]. intros i Hi. apply Hall. lia.
Qed.

Lemma album_same_group_fetch (lo hi : Z) :
  (forall i, lo <= i <= hi -> c !! i = Some g) ->
  album g lo hi = same_group g (omap (message_at c) (py_range lo (hi + 1))).
Proof.
  intros Hall. unfold album, py_range. symmetry.
  apply same_group_fetch_all. intros i Hi. apply elem_of_seqZ in Hi.
  apply Hall. lia.
Qed.

(** The matches of an accepted chunk spelled out. *)
Lemma accepted_chunk (lo current_id : Z) :
  lo <= current_id ->
  accepts current_id
    (same_group g (omap (message_at c) (py_range lo (current_id + 1))))
    = true ->
  exists k,
    lo <= k <= current_id
    /\ same_group g (omap (message_at c) (py_range lo (current_id + 1)))
       = album g k current_id
    /\ forall i, k <= i <= current_id -> c !! i = Some g.
Proof.
  intros Hlo Hacc. unfold accepts in Hacc.
  destruct (head (same_group g _)) as [first|] eqn:Eh; [|discriminate].
  apply Z.eqb_eq in Hacc.
  assert (Hne : (0 < length (same_group g (omap (message_at c)
                     (py_range lo (current_id + 1)))))%nat).
  { destruct (same_group g _); [discriminate|cbn; lia]. }
  unfold py_range in *.
  rewrite <- (Z2Nat.id (current_id + 1 - lo)) in Eh, Hacc, Hne by lia.
  destruct (accepted_chunk_ids _ lo first Eh) as [Hk Hall]; [lia|].
  rewrite Z2Nat.id in Eh, Hacc, Hne, Hall by lia.
  exists (id first). split; [lia|].
  assert (Hall' : forall i, id first <= i <= current_id -> c !! i = Some g).
  { intros i Hi. apply Hall. lia. }
  split; [|done].
  pose proof (same_group_fetch_range_app c g lo (id first)
                (current_id + 1) Hk ltac:(lia)) as Happ.
  pose proof (album_same_group_fetch (id first) current_id Hall') as Ealb.
  unfold py_range in Happ, Ealb. rewrite Happ in Hacc |- *.
  rewrite <- Ealb in Hacc |- *.
  rewrite length_app, length_album in Hacc.
  destruct (same_group g (omap (message_at c) (seqZ lo (id first - lo))))
    as [|x xs]; [done|]. cbn [length] in Hacc. lia.
Qed.

(** X6.  Against a chat, the backward scan from a [current_id] of at least
    1 adds a block of the group's messages with ids in a row that ends at
    [current_id], possibly an empty one: the messages [k .. current_id],
    all of which belong to the group.  The block starts at 1 or right above
    a chunk that the test of line 86 rejects. *)
Theorem search_backwards_chat_takes fuel :
  forall current_id mg mg' w' log,
    1 <= current_id ->
    search_backwards chat_client fuel me g mg current_id c
      = (Returns mg', w', log) ->
    exists k,
      1 <= k <= current_id + 1
      /\ mg' = album g k current_id ++ mg
      /\ (forall i, k <= i <= current_id -> c !! i = Some g)
      /\ (k = 1
          \/ accepts (k - 1)
               (same_group g (omap (message_at c)
                  (py_range (Z.max 1 (k - 1 - 9)) (k - 1 + 1)))) = false).
Proof.
  induction fuel as [|fuel IH]; intros cur mg mg' w' log Hcur Hrun;
    [discriminate|].
  destruct (accepts cur (same_group g (omap (message_at c)
              (py_range (Z.max 1 (cur - 9)) (cur + 1))))) eqn:Eacc.
  - destruct (accepted_chunk (Z.max 1 (cur - 9)) cur ltac:(lia) Eacc)
      as (k & Hk & EX & Hall).
    rewrite search_backwards_S in Hrun.
    cbn [chat_client get_messages] in Hrun. unfold accepts in Eacc.
    destruct (head (same_group g _)) as [first|] eqn:Eh; [|discriminate].
    rewrite Eacc in Hrun. cbn [negb] in Hrun.
    assert (Hfirst : id first = k).
    { rewrite EX, head_album in Eh by lia. by injection Eh as <-. }
    rewrite Hfirst, EX in Hrun.
    destruct (k - 1 <=? 0) eqn:Ek.
    + apply Z.leb_le in Ek. injection Hrun as <- _ _.
      exists k. split; [lia|]. split; [done|]. split; [done|]. left. lia.
    + apply Z.leb_gt in Ek.
      destruct (search_backwards chat_client fuel _ _ _ _ c)
        as [[r w2] log2] eqn:Erec.
      injection Hrun as -> _ _.
      apply IH in Erec as (k' & Hk' & -> & Hall' & Hstop); [|lia].
      exists k'. split; [lia|]. split.
      * rewrite app_assoc. f_equal.
        rewrite <- (album_app g k' (k - 1) cur) by lia.
        by replace (k - 1 + 1) with k by lia.
      * split; [|done]. intros i Hi.
        destruct (Z.lt_ge_cases i k); [apply Hall'|apply Hall]; lia.
  - rewrite (search_backwards_rejected chat_client fuel me g mg cur c _ c
               eq_refl Eacc) in Hrun.
    injection Hrun as <- _ _. exists (cur + 1).
    split; [lia|]. split; [by rewrite album_empty by lia|].
    split; [intros i Hi; lia|]. right.
    by replace (cur + 1 - 1) with cur by lia.
Qed.
End ChatBlock.

Lemma search_backwards_chat_takes_witness :
  exists k,
    1 <= k <= 12 + 1
    /\ [msg 10; msg 11; msg 12] = album G k 12 ++ []
    /\ (forall i, k <= i <= 12 -> chat_album !! i = Some G)
    /\ (k = 1
        \/ accepts (k - 1)
             (same_group G (omap (message_at chat_album)
                (py_range (Z.max 1 (k - 1 - 9)) (k - 1 + 1)))) = false).
Proof.
  apply (search_backwards_chat_takes chat_album G 20 12 []
           [msg 10; msg 11; msg 12] chat_album
           [GetRange me 3 13; GetRange me 1 10]); [lia|by vm_compute].
Defined.

(** ** What the method returns from a chat *)

Lemma ascending_Sorted (l : list Message) :
  StronglySorted id_lt l -> Sorted id_le l.
Proof.
  induction 1 as [|x l Hl IH Hx]; constructor; [done|].
  destruct Hx as [|y l' Hy _]; constructor. unfold id_lt, id_le in *. lia.
Qed.

(** A successful run against a chat, taken apart. *)
Lemma resolve_chat_inv (c : chat) (message_id : Z) (fuel : nat)
    (l : list Message) :
  resolve fuel c message_id = Returns l ->
  exists g mg1 mg2 log1 log2,
    0 < message_id
    /\ c !! message_id = Some g
    /\ truthy g = true
    /\ search_backwards chat_client fuel me g [] message_id c
       = (Returns mg1, c, log1)
    /\ search_forwards chat_client fuel me g mg1 (message_id + 1) c
       = (Returns mg2, c, log2)
    /\ mg2 <> []
    /\ l = sorted mg2.
Proof.
  unfold resolve, outcome, get_media_group.
  destruct (message_id <=? 0) eqn:E0; [discriminate|]. apply Z.leb_gt in E0.
  unfold bind at 1. unfold call_get_message. cbn [chat_client get_message].
  unfold message_at.
  destruct (c !! message_id) as [g|] eqn:Eg; [|discriminate].
  cbn [fmap option_fmap option_map media_group_id].
  destruct (truthy g) eqn:Et; [|discriminate]. cbn [negb]. unfold bind.
  destruct (search_backwards chat_client fuel me g [] message_id c)
    as [[[mg1|e1|] w2] log1] eqn:Eb; try discriminate.
  pose proof (search_backwards_chat_unchanged c g _ _ _ _ _ _ Eb) as ->.
  destruct (search_forwards chat_client fuel me g mg1 (message_id + 1) c)
    as [[[mg2|e2|] w3] log2] eqn:Ef; try discriminate.
  pose proof (search_forwards_chat_unchanged c g _ _ _ _ _ _ Ef) as ->.
  destruct mg2 as [|m0 mg2]; [discriminate|].
  unfold ret. cbn [fst]. intros [= <-].
  exists g, mg1, (m0 :: mg2), log1, log2. by repeat split.
Qed.

(** X7.  Whatever list the method returns from a chat is an interval of the
    seed's group: there are ids [lo <= message_id + 1] and
    [hi >= message_id] such that the list holds exactly the messages of the
    chat that carry the seed's [media_group_id] and have an id from [lo] to
    [hi], each of them once and in ascending order of id.  Up to the seed
    the interval has no hole, every id from [lo] to [message_id] being a
    message of the group, and the ten ids above [hi] hold none. *)
Theorem get_media_group_chat_interval (c : chat) (message_id : Z)
    (fuel : nat) (l : list Message) :
  resolve fuel c message_id = Returns l ->
  exists g lo hi,
    c !! message_id = Some g
    /\ truthy g = true
    /\ 1 <= lo <= message_id + 1
    /\ message_id <= hi
    /\ (forall m, m ∈ l <->
          in_chat c m /\ media_group_id m = g /\ lo <= id m <= hi)
    /\ StronglySorted id_lt l
    /\ l <> []
    /\ (forall i, lo <= i <= message_id -> c !! i = Some g)
    /\ (forall i, hi < i <= hi + 10 -> c !! i <> Some g).
Proof.
  intros Hrun.
  apply resolve_chat_inv in Hrun
    as (g & mg1 & mg2 & log1 & log2 & Hpos & Hg & Ht & Hb & Hf & Hne & ->).
  apply search_backwards_chat_takes in Hb as (k & Hk & -> & Hall & _);
    [|lia].
  apply search_forwards_chat_takes in Hf as (stop & Hstop & -> & Hclean & _).
  rewrite app_nil_r in *.
  rewrite (album_same_group_fetch c g k message_id Hall) in *.
  rewrite <- (same_group_fetch_range_app c g k (message_id + 1) stop) in *
    by lia.
  set (l := same_group g (omap (message_at c) (py_range k stop))) in *.
  assert (Hasc : StronglySorted id_lt l)
    by apply same_group_fetch_range_ascending.
  rewrite (sorted_id l (ascending_Sorted l Hasc)).
  exists g, k, (stop - 1).
  split; [done|]. split; [done|]. split; [lia|]. split; [lia|]. split.
  { intros m. unfold l. rewrite elem_of_same_group_fetch.
    unfold py_range. rewrite elem_of_seqZ.
    split; intros (? & ? & ?); repeat split; try done; lia. }
  split; [done|]. split; [done|]. split; [done|].
  intros i Hi. apply Hclean. lia.
Qed.

Lemma get_media_group_chat_interval_witness :
  exists g lo hi,
    chat_gap_above !! 12 = Some g
    /\ truthy g = true
    /\ 1 <= lo <= 12 + 1
    /\ 12 <= hi
    /\ (forall m, m ∈ [msg 10; msg 11; msg 12; msg 14] <->
          in_chat chat_gap_above m /\ media_group_id m = g
          /\ lo <= id m <= hi)
    /\ StronglySorted id_lt [msg 10; msg 11; msg 12; msg 14]
    /\ [msg 10; msg 11; msg 12; msg 14] <> []
    /\ (forall i, lo <= i <= 12 -> chat_gap_above !! i = Some g)
    /\ (forall i, hi < i <= hi + 10 -> chat_gap_above !! i <> Some g).
Proof.
  apply (get_media_group_chat_interval chat_gap_above 12 20
           [msg 10; msg 11; msg 12; msg 14]).
  by vm_compute.
Defined.

(** The test of line 86 on a chunk of a chat, in terms of the chat: the
    messages of the group in the chunk are those of the ids [k .. current_id]
    for some [k]. *)
Lemma accepts_chat_iff (c : chat) (g : pyval) (lo current_id : Z) :
  lo <= current_id ->
  accepts current_id
    (same_group g (omap (message_at c) (py_range lo (current_id + 1))))
    = true
  <->
  exists k,
    lo <= k <= current_id
    /\ (forall i, k <= i <= current_id -> c !! i = Some g)
    /\ (forall i, lo <= i < k -> c !! i <> Some g).
Proof.
  intros Hlo. split.
  - intros Hacc.
    destruct (accepted_chunk c g lo current_id Hlo Hacc)
      as (k & Hk & EX & Hall).
    exists k. split; [done|]. split; [done|].
    rewrite (same_group_fetch_range_app c g lo k (current_id + 1)) in EX
      by lia.
    rewrite <- (album_same_group_fetch c g k current_id Hall) in EX.
    assert (Hnil : same_group g (omap (message_at c) (py_range lo k)) = []).
    { apply (f_equal length) in EX. rewrite length_app in EX.
      destruct (same_group g (omap (message_at c) (py_range lo k)));
        [done|cbn in EX; lia]. }
    intros i Hi. apply (same_group_fetch_nil_inv c g _ Hnil).
    unfold py_range. apply elem_of_seqZ. lia.
  - intros (k & Hk & Hall & Hbelow).
    rewrite (same_group_chunk c g lo k current_id current_id);
      try done; try lia.
    unfold accepts. rewrite head_album, length_album by lia. cbn [id].
    apply Z.eqb_eq. lia.
Qed.

(** X8.  From a chat, the seed itself is in the returned list exactly when
    the messages of its group among the ids [max(1, message_id - 9)] to
    [message_id] are those of some ids [k .. message_id] in a row; a message
    of the group lower in that range that is cut off from the seed by an id
    without one keeps the seed out of the list. *)
Theorem get_media_group_chat_seed (c : chat) (g : pyval) (message_id : Z)
    (fuel : nat) (l : list Message) :
  c !! message_id = Some g ->
  resolve fuel c message_id = Returns l ->
  mkMessage message_id g ∈ l
  <->
  exists k,
    Z.max 1 (message_id - 9) <= k <= message_id
    /\ (forall i, k <= i <= message_id -> c !! i = Some g)
    /\ (forall i, Z.max 1 (message_id - 9) <= i < k -> c !! i <> Some g).
Proof.
  intros Hg Hrun.
  apply resolve_chat_inv in Hrun
    as (g' & mg1 & mg2 & log1 & log2 & Hpos & Hg' & Ht & Hb & Hf & Hne & ->).
  assert (g' = g) as -> by congruence.
  rewrite <- (accepts_chat_iff c g (Z.max 1 (message_id - 9)) message_id)
    by lia.
  assert (Hperm : forall m, m ∈ sorted mg2 <-> m ∈ mg2).
  { intros m. by rewrite (sorted_perm mg2). }
  rewrite Hperm.
  destruct (accepts message_id _) eqn:Eacc.
  - split; [done|]. intros _.
    pose proof (search_backwards_accepted chat_client fuel me g message_id c
                  _ c mg1 c log1 eq_refl Eacc Hb) as Hne1.
    apply search_backwards_chat_takes in Hb as (k & Hk & -> & Hall & _);
      [|lia].
    apply search_forwards_chat_takes in Hf as (stop & _ & -> & _).
    rewrite app_nil_r in *.
    assert (k <= message_id).
    { destruct (Z.le_gt_cases k message_id); [done|].
      by rewrite album_empty in Hne1 by lia. }
    apply elem_of_app. left. apply elem_of_album. cbn. split; [done|lia].
  - split; [|done]. intros Hin.
    destruct fuel as [|fuel]; [discriminate|].
    rewrite (search_backwards_rejected chat_client fuel me g [] message_id c
               _ c eq_refl Eacc) in Hb.
    injection Hb as <- _.
    apply (search_forwards_chat_above c g (message_id + 1)) in Hf;
      [|lia|constructor].
    apply (proj1 (Forall_forall _ _) Hf) in Hin. cbn in Hin. lia.
Qed.

Lemma get_media_group_chat_seed_witness :
  msg 12 ∈ [msg 10; msg 11; msg 12; msg 13; msg 14]
  <->
  exists k,
    Z.max 1 (12 - 9) <= k <= 12
    /\ (forall i, k <= i <= 12 -> chat_album !! i = Some G)
    /\ (forall i, Z.max 1 (12 - 9) <= i < k -> chat_album !! i <> Some G).
Proof.
  apply (get_media_group_chat_seed chat_album G 12 20
           [msg 10; msg 11; msg 12; msg 13; msg 14]); by vm_compute.
Defined.

(** X9.  The forward scan does not ask for ids in a row.  From a chat in
    which the ids from the seed up to [b] belong to the seed's group, a
    further message of the group at most ten ids above [b] is in every list
    the method returns, also when ids without a message of the group lie in
    between. *)
Theorem get_media_group_chat_takes_above (c : chat) (g : pyval)
    (message_id b j : Z) (fuel : nat) (l : list Message) :
  (forall i, message_id <= i <= b -> c !! i = Some g) ->
  message_id <= b ->
  b < j <= b + 10 ->
  c !! j = Some g ->
  resolve fuel c message_id = Returns l ->
  mkMessage j g ∈ l.
Proof.
  intros Hrun_ids Hb Hj Hgj Hrun.
  apply resolve_chat_inv in Hrun
    as (g' & mg1 & mg2 & log1 & log2 & Hpos & Hg' & Ht & _ & Hf & Hne & ->).
  assert (g' = g) as ->.
  { rewrite (Hrun_ids message_id) in Hg' by lia. congruence. }
  rewrite (sorted_perm mg2).
  apply search_forwards_chat_takes in Hf as (stop & Hstop & -> & Hclean & _).
  assert (j < stop).
  { destruct (Z.lt_ge_cases j stop) as [|Hle]; [done|]. exfalso.
    destruct (Z.le_gt_cases stop b) as [Hin|Hout].
    - apply (Hclean stop); [lia|]. apply Hrun_ids. lia.
    - apply (Hclean j); [lia|done]. }
  apply elem_of_app. right. apply elem_of_same_group_fetch. cbn.
  split; [unfold py_range; apply elem_of_seqZ; lia|]. split; [|done].
  unfold in_chat, message_at. cbn. by rewrite Hgj.
Qed.

Lemma get_media_group_chat_takes_above_witness :
  msg 14 ∈ [msg 10; msg 11; msg 12; msg 14].
Proof.
  apply (get_media_group_chat_takes_above chat_gap_above G 12 12 14 20
           [msg 10; msg 11; msg 12; msg 14]);
    [|lia|lia|by vm_compute|by vm_compute].
  intros i Hi. replace i with 12 by lia. by vm_compute.
Defined.

(** X10.  Ten ids in a row without a message of the group end the forward
    scan for good.  From a chat in which the ten ids above some [b], at or
    above the seed, hold no message of the seed's group, no message above
    [b] is in a list the method returns, however many messages of the group
    the chat holds further up. *)
Theorem get_media_group_chat_stops_at_gap (c : chat) (g : pyval)
    (message_id b : Z) (fuel : nat) (l : list Message) :
  c !! message_id = Some g ->
  message_id <= b ->
  (forall i, b < i <= b + 10 -> c !! i <> Some g) ->
  resolve fuel c message_id = Returns l ->
  Forall (fun m => id m <= b) l.
Proof.
  intros Hg Hb Hgap Hrun.
  apply resolve_chat_inv in Hrun
    as (g' & mg1 & mg2 & log1 & log2 & Hpos & Hg' & Ht & Hbw & Hf & Hne & ->).
  assert (g' = g) as -> by congruence.
  eapply Permutation_Forall; [symmetry; apply sorted_perm|].
  apply search_backwards_chat_takes in Hbw as (k & Hk & -> & _); [|lia].
  apply search_forwards_chat_takes in Hf
    as (stop & Hstop & -> & _ & Hdense).
  assert (stop <= b + 1).
  { destruct (Z.le_gt_cases stop (b + 1)) as [|Hgt]; [done|]. exfalso.
    destruct (Hdense (b + 1)) as (j & Hj & Hgj); [lia|].
    apply (Hgap j); [lia|done]. }
  rewrite app_nil_r. apply Forall_app. split; apply Forall_forall; intros m Hm.
  - apply elem_of_album in Hm as [_ Hm]. lia.
  - apply elem_of_same_group_fetch in Hm as (Hm & _).
    unfold py_range in Hm. apply elem_of_seqZ in Hm. lia.
Qed.

Lemma get_media_group_chat_stops_at_gap_witness :
  Forall (fun m => id m <= 14) [msg 10; msg 11; msg 12; msg 13; msg 14].
Proof.
  apply (get_media_group_chat_stops_at_gap chat_album G 12 14 20
           [msg 10; msg 11; msg 12; msg 13; msg 14]);
    [by vm_compute|lia| |by vm_compute].
  intros i Hi. by_range (fun i => chat_album !! i <> Some G) 15 10.
Defined.
